(** * fix-date-parsing.py: the one-shot patcher of merge-stamp.js

    A shallow embedding of [fix_date_parsing] and of the script's entry
    point, with the Python built-ins it relies on ([str.split],
    [str.join], [in] on strings, [list.insert], item assignment,
    text-mode [open]) written out as Rocq functions. *)

From Stdlib Require Import Ascii String ZArith Lia.
From stdpp Require Import base list strings gmap.

Local Open Scope Z_scope.
Local Open Scope nat_scope.

(** ** Characters and text *)

(** ['\n'] and ['\r']. *)
Definition LF : ascii := "010"%char.
Definition CR : ascii := "013"%char.

Notation "[: c :]" := (String c EmptyString) (at level 0, c at level 200).

(** [s.startswith(p)], the test [needle in hay] is built from. *)
Fixpoint startswith (p s : string) : bool :=
  match p, s with
  | EmptyString, _ => true
  | String a p', String b s' => if Ascii.eqb a b then startswith p' s' else false
  | String _ _, EmptyString => false
  end.

(** [needle in hay] on [str]: [needle] occurs in [hay] as a contiguous,
    case-sensitive run of characters, at any offset. *)
Fixpoint str_in (needle hay : string) : bool :=
  startswith needle hay ||
  match hay with
  | EmptyString => false
  | String _ hay' => str_in needle hay'
  end.

(** [s.split(sep)] for a one-character separator: never the empty list;
    [n] separators give [n + 1] fields, empty fields included. *)
Fixpoint split (sep : ascii) (s : string) : list string :=
  match s with
  | EmptyString => [EmptyString]
  | String c s' =>
      if Ascii.eqb c sep then EmptyString :: split sep s'
      else match split sep s' with
           | [] => [[: c :]]
           | field :: fields => String c field :: fields
           end
  end.

(** [sep.join(items)]. *)
Fixpoint join (sep : string) (items : list string) : string :=
  match items with
  | [] => EmptyString
  | [x] => x
  | x :: rest => x +:+ sep +:+ join sep rest
  end.

(** What [open(path, 'r')] (newline=None) hands to the program: every
    ["\r\n"] and every lone ["\r"] of the stored text reads as ["\n"]. *)
Fixpoint universal_newlines (s : string) : string :=
  match s with
  | EmptyString => EmptyString
  | String c s' =>
      if Ascii.eqb c CR then
        match s' with
        | String d s'' =>
            if Ascii.eqb d LF then String LF (universal_newlines s'')
            else String LF (universal_newlines s')
        | EmptyString => String LF EmptyString
        end
      else String c (universal_newlines s')
  end.

(** ** The literals of the script *)

(** The text looked for in each line (line 19). *)
Definition MatchLiteral : string :=
  "const monthNum = months[month.toLowerCase()] || '01';".

(** The two lines put before the matched one (lines 21 and 22); the Python
    literal of the second spells its backslash as an escape. *)
Definition InsertionLiteral0 : string :=
  "      // Clean up potential spacing in month names".
Definition InsertionLiteral1 : string :=
  "      month = month.replace(/\s+/g, '').toLowerCase();".

(** The line that takes the matched one's place (line 24). *)
Definition ReplacementLiteral : string :=
  "      const monthNum = months[month] || '01';".

Definition success_message : string :=
  "Successfully updated the date parsing logic in merge-stamp.js".
Definition error_prefix : string := "Error updating file: ".

(** The path the entry point passes (line 39). *)
Definition file_path : string :=
  "/Users/admin/Scripts/pdf-merger/merge-stamp.js".

(** ** Exceptions and list mutation *)

Inductive py_exn : Type :=
  | FileNotFoundError (path : string)
  | PermissionError (path : string)
  | UnicodeDecodeError (path : string)
  | IndexError.

Inductive outcome (A : Type) : Type :=
  | Return (a : A)
  | Raise (e : py_exn).
Arguments Return {A} a.
Arguments Raise {A} e.

(** [l.insert(i, x)] for [i >= 0]: [x] goes before position [i], at the end
    when [i] is past it. *)
Definition py_insert {A} (i : nat) (x : A) (l : list A) : list A :=
  take i l ++ x :: drop i l.

(** [l[i] = x] for [i >= 0]: IndexError when [i] is not a position of [l]. *)
Definition py_setitem {A} (i : nat) (x : A) (l : list A) : outcome (list A) :=
  if decide (i < length l) then Return (<[i := x]> l) else Raise IndexError.

(** ** The scan-and-patch loop (lines 18 to 25)

    [for i, line in enumerate(lines)]: [pending] is what the iterator has
    yet to yield and [i] the index of its head; [lines] is the list object
    itself. The loop body mutates [lines] only on the branch that ends in
    [break], so the iterator never observes a mutated list and [pending] is
    a suffix of the list as it was read. *)
Fixpoint scan (i : nat) (pending lines : list string) : outcome (list string) :=
  match pending with
  | [] => Return lines
  | line :: pending' =>
      if str_in MatchLiteral line then
        let lines1 := py_insert i InsertionLiteral0 lines in
        let lines2 := py_insert (i + 1) InsertionLiteral1 lines1 in
        py_setitem (i + 2) ReplacementLiteral lines2
      else scan (S i) pending' lines
  end.

Definition patch_lines (lines : list string) : outcome (list string) :=
  scan 0 lines lines.


(** ** Files, standard output and the I/O of the script *)

(** What a path holds: text, or bytes the locale's codec rejects. *)
Inductive file_data : Type :=
  | Text (stored : string)
  | Undecodable.

Record file : Type := File {
  f_readable : bool;
  f_writable : bool;
  f_data : file_data
}.

Inductive io_op : Type :=
  | OpenRead (path : string)
  | OpenWrite (path : string).

(** The world the script runs in: the files by path, the lines printed so
    far, and the [open] calls made so far, oldest first. *)
Record world : Type := World {
  w_fs : gmap string file;
  w_stdout : list string;
  w_ops : list io_op
}.

(** A computation that reads and changes the world and returns or raises;
    what it did before raising stays done. *)
Definition IO (A : Type) : Type := world -> outcome A * world.

Definition io_ret {A} (a : A) : IO A := fun w => (Return a, w).

Definition io_bind {A B} (m : IO A) (k : A -> IO B) : IO B :=
  fun w =>
    match m w with
    | (Return a, w') => k a w'
    | (Raise e, w') => (Raise e, w')
    end.

Definition io_lift {A} (r : outcome A) : IO A := fun w => (r, w).

(** [try: body / except Exception as e: handler e]; every [py_exn] is an
    [Exception]. *)
Definition try_except {A} (body : IO A) (handler : py_exn -> IO A) : IO A :=
  fun w =>
    match body w with
    | (Return a, w') => (Return a, w')
    | (Raise e, w') => handler e w'
    end.

Declare Scope io_scope.
Delimit Scope io_scope with io.
Notation "x <- m ;; k" := (io_bind m (fun x => k))
  (at level 100, m at next level, right associativity) : io_scope.
Notation "m ;;; k" := (io_bind m (fun _ => k))
  (at level 100, right associativity) : io_scope.

Definition record_op (op : io_op) (w : world) : world :=
  World (w_fs w) (w_stdout w) (w_ops w ++ [op]).

(** [with open(path, 'r') as f: f.read()] (lines 11 and 12). *)
Definition read_text (path : string) : IO string :=
  fun w =>
    let w' := record_op (OpenRead path) w in
    match w_fs w !! path with
    | None => (Raise (FileNotFoundError path), w')
    | Some f =>
        if f_readable f then
          match f_data f with
          | Text stored => (Return (universal_newlines stored), w')
          | Undecodable => (Raise (UnicodeDecodeError path), w')
          end
        else (Raise (PermissionError path), w')
    end.

(** [with open(path, 'w') as f: f.write(text)] (lines 28 and 29) where the
    line separator of the platform is ["\n"]: the file is created when the
    path holds none, truncated and rewritten when it holds a writable one.
    [f_writable] stands for the whole write going through: the only fault
    is the one of the [open], before the file is touched; a fault of
    [f.write] or of the closing of the file, after the truncation, is not
    part of this model. *)
Definition write_text (path : string) (text : string) : IO unit :=
  fun w =>
    let w' := record_op (OpenWrite path) w in
    match w_fs w !! path with
    | None =>
        (Return tt,
         World (<[path := File true true (Text text)]> (w_fs w'))
               (w_stdout w') (w_ops w'))
    | Some f =>
        if f_writable f then
          (Return tt,
           World (<[path := File (f_readable f) true (Text text)]> (w_fs w'))
                 (w_stdout w') (w_ops w'))
        else (Raise (PermissionError path), w')
    end.

Definition print (line : string) : IO unit :=
  fun w => (Return tt, World (w_fs w) (w_stdout w ++ [line]) (w_ops w)).

Section Script.

(** [str(e)], as the interpreter renders an exception. *)
Variable exn_str : py_exn -> string.

(** The [try] block (lines 10 to 32). *)
Definition try_block (file_path : string) : IO bool :=
  (content <- read_text file_path ;;
   let lines := split LF content in
   lines <- io_lift (patch_lines lines) ;;
   write_text file_path (join [: LF :] lines) ;;;
   print success_message ;;;
   io_ret true)%io.

(** The [except] block (lines 34 to 36). *)
Definition except_block (e : py_exn) : IO bool :=
  (print (error_prefix +:+ exn_str e) ;;;
   io_ret false)%io.

Definition fix_date_parsing (file_path : string) : IO bool :=
  try_except (try_block file_path) except_block.

(** The entry point (lines 38 to 41), returning the exit status; an
    exception that reached the top level would end the process with
    status 1. *)
Definition main (w : world) : Z * world :=
  match fix_date_parsing file_path w with
  | (Return success, w') => ((if success then 0 else 1)%Z, w')
  | (Raise _, w') => (1%Z, w')
  end.

(** The script's function called [n] times in a row on one path. *)
Fixpoint run_times (n : nat) (p : string) (w : world) : world :=
  match n with
  | 0 => w
  | S n' => run_times n' p (snd (fix_date_parsing p w))
  end.

End Script.

(** ** Auxiliary notions used to state the properties *)

(** [c in s] for a single character. *)
Fixpoint has_char (c : ascii) (s : string) : bool :=
  match s with
  | EmptyString => false
  | String d s' => Ascii.eqb d c || has_char c s'
  end.

(** [s.count(c)] for a single character. *)
Fixpoint count_char (c : ascii) (s : string) : nat :=
  match s with
  | EmptyString => 0
  | String d s' => (if Ascii.eqb d c then 1 else 0) + count_char c s'
  end.

(** The line sequence the program derives from a stored text. *)
Definition file_lines (stored : string) : list string :=
  split LF (universal_newlines stored).

(** The test of line 19 and its negation, as predicates on lines. *)
Definition matches (line : string) : Prop := str_in MatchLiteral line = true.
Definition unmatched (line : string) : Prop := str_in MatchLiteral line = false.

(** Index of the first line that passes the test of line 19. *)
Fixpoint first_match (lines : list string) : option nat :=
  match lines with
  | [] => None
  | line :: rest =>
      if str_in MatchLiteral line then Some 0
      else option_map S (first_match rest)
  end.

(** Number of lines that pass the test. *)
Definition count_matches (lines : list string) : nat :=
  length (List.filter (str_in MatchLiteral) lines).

(** What the loop leaves in [lines], read off [first_match]. *)
Definition patched (lines : list string) : list string :=
  match first_match lines with
  | None => lines
  | Some i =>
      take i lines
      ++ InsertionLiteral0 :: InsertionLiteral1 :: ReplacementLiteral
      :: drop (S i) lines
  end.

(** [needle] is a contiguous part of [hay]. *)
Definition contains (needle hay : string) : Prop :=
  exists a b, hay = a +:+ needle +:+ b.

(** [s.endswith("\n")]. *)
Fixpoint ends_with_LF (s : string) : bool :=
  match s with
  | EmptyString => false
  | String c EmptyString => Ascii.eqb c LF
  | String _ s' => ends_with_LF s'
  end.

(** The stored text ends in a line break of either style. *)
Fixpoint ends_with_break (s : string) : bool :=
  match s with
  | EmptyString => false
  | String c EmptyString => Ascii.eqb c LF || Ascii.eqb c CR
  | String _ s' => ends_with_break s'
  end.

(** Sample data: a rendering of exceptions, the target line as it stands
    in an indented source file, and worlds holding one file at the path of
    the entry point. *)
Definition sample_exn_str (e : py_exn) : string :=
  match e with
  | FileNotFoundError p => "[Errno 2] No such file or directory: '" +:+ p +:+ "'"
  | PermissionError p => "[Errno 13] Permission denied: '" +:+ p +:+ "'"
  | UnicodeDecodeError _ => "'utf-8' codec can't decode byte"
  | IndexError => "list assignment index out of range"
  end.

Definition indented_site : string := "      " +:+ MatchLiteral.

Definition world_with (f : file) : world :=
  World {[ file_path := f ]} [] [].

Definition world_of (stored : string) : world :=
  world_with (File true true (Text stored)).

Definition empty_world : world := World ∅ [] [].

Definition scenario_text : string :=
  "a" +:+ [: LF :] +:+ MatchLiteral +:+ [: LF :] +:+ "b".

Definition plain_text : string :=
  "a" +:+ [: LF :] +:+ "b" +:+ [: LF :].

Definition two_sites_text : string :=
  indented_site +:+ [: LF :] +:+ MatchLiteral.

Definition twice_text : string :=
  MatchLiteral +:+ [: LF :] +:+ MatchLiteral.

Definition site_and_break_text : string :=
  indented_site +:+ [: CR :] +:+ [: LF :].

Definition crlf_text : string := "a" +:+ [: CR :] +:+ [: LF :].

Definition prefixed_sites_text : string :=
  "a" +:+ [: LF :] +:+ MatchLiteral +:+ [: LF :] +:+ "x"
  +:+ [: LF :] +:+ indented_site.

Definition three_sites_text : string :=
  indented_site +:+ [: LF :] +:+ MatchLiteral +:+ [: LF :] +:+ MatchLiteral.

(** A line that carries neither line-break character. *)
Definition clean (line : string) : Prop :=
  has_char LF line = false /\ has_char CR line = false.

(** ** Facts about the string built-ins *)

Lemma startswith_spec p s :
  startswith p s = true <-> exists t, s = p +:+ t.
Proof.
  revert s. induction p as [|a p IH]; intros s; simpl.
  - split; [intros _; by exists s | done].
  - destruct s as [|b s].
    + split; [done | intros [t Ht]; discriminate].
    + destruct (Ascii.eqb_spec a b) as [->|Hab].
      * rewrite IH. split; intros [t Ht]; exists t; simpl in *;
          [by rewrite Ht | by injection Ht].
      * split; [done | intros [t Ht]; simpl in Ht; injection Ht as Hb _; done].
Qed.

Lemma str_in_spec needle hay :
  str_in needle hay = true <-> exists a b, hay = a +:+ needle +:+ b.
Proof.
  induction hay as [|c hay IH]; simpl.
  - rewrite orb_false_r, startswith_spec. split.
    + intros [t Ht]. by exists EmptyString, t.
    + intros [[|c a] [b Hb]]; [by exists b | discriminate].
  - rewrite orb_true_iff, startswith_spec, IH. split.
    + intros [[t Ht] | (a & b & Hab)].
      * by exists EmptyString, t.
      * exists (String c a), b. simpl. by rewrite Hab.
    + intros ([|d a] & b & Hab); simpl in Hab.
      * left. by exists b.
      * right. exists a, b. by injection Hab.
Qed.

Lemma has_char_app c a b :
  has_char c (a +:+ b) = has_char c a || has_char c b.
Proof. induction a as [|d a IH]; simpl; [done|]. by rewrite IH, orb_assoc. Qed.

Lemma split_nonempty sep s : split sep s <> [].
Proof.
  destruct s as [|c s]; simpl; [done|].
  destruct (Ascii.eqb c sep); [done|]. by destruct (split sep s).
Qed.

Lemma join_cons sep x y rest :
  join sep (x :: y :: rest) = x +:+ sep +:+ join sep (y :: rest).
Proof. reflexivity. Qed.

Lemma join_String_head sep c x rest :
  join sep (String c x :: rest) = String c (join sep (x :: rest)).
Proof. by destruct rest. Qed.

(** [sep.join(s.split(sep)) == s]. *)
Lemma join_split sep s : join [: sep :] (split sep s) = s.
Proof.
  induction s as [|c s IH]; simpl; [done|].
  destruct (Ascii.eqb_spec c sep) as [->|Hc].
  - pose proof (split_nonempty sep s) as Hne.
    destruct (split sep s) as [|y rest]; [done|].
    rewrite join_cons, IH. reflexivity.
  - pose proof (split_nonempty sep s) as Hne.
    destruct (split sep s) as [|y rest]; [done|].
    by rewrite join_String_head, IH.
Qed.

Lemma split_no_sep sep s : has_char sep s = false -> split sep s = [s].
Proof.
  induction s as [|c s IH]; simpl; [done|].
  rewrite orb_false_iff. intros [Hc Hs]. rewrite Hc, IH; done.
Qed.

Lemma split_app_sep sep l t :
  has_char sep l = false ->
  split sep (l +:+ String sep t) = l :: split sep t.
Proof.
  induction l as [|c l IH]; simpl.
  - intros _. by rewrite Ascii.eqb_refl.
  - rewrite orb_false_iff. intros [Hc Hl]. rewrite Hc, IH; done.
Qed.

(** [sep.join(items).split(sep) == items] when no item holds [sep] and
    there is at least one item. *)
Lemma split_join sep items :
  items <> [] ->
  Forall (fun l => has_char sep l = false) items ->
  split sep (join [: sep :] items) = items.
Proof.
  induction items as [|x [|y rest] IH]; intros Hne Hall; [done| |].
  - simpl. apply split_no_sep. by inversion Hall.
  - rewrite join_cons. inversion Hall as [|?? Hx Hrest]; subst.
    change (x +:+ [: sep :] +:+ join [: sep :] (y :: rest))
      with (x +:+ String sep (join [: sep :] (y :: rest))).
    rewrite split_app_sep by done. f_equal. by apply IH.
Qed.

Lemma split_fields_no_sep sep s :
  Forall (fun l => has_char sep l = false) (split sep s).
Proof.
  induction s as [|c s IH]; simpl; [by constructor|].
  destruct (Ascii.eqb c sep) eqn:Hc; [by constructor|].
  destruct (split sep s) as [|y rest]; [constructor; [simpl; by rewrite Hc | done]|].
  inversion IH; subst. constructor; [simpl; by rewrite Hc | done].
Qed.

Lemma split_fields_no_char c sep s :
  has_char c s = false ->
  Forall (fun l => has_char c l = false) (split sep s).
Proof.
  induction s as [|d s IH]; simpl; [by constructor|].
  rewrite orb_false_iff. intros [Hd Hs]. specialize (IH Hs).
  destruct (Ascii.eqb d sep); [by constructor|].
  destruct (split sep s) as [|y rest]; [constructor; [simpl; by rewrite Hd | done]|].
  inversion IH; subst. constructor; [simpl; by rewrite Hd | done].
Qed.

Lemma join_no_char c sep items :
  has_char c sep = false ->
  Forall (fun l => has_char c l = false) items ->
  has_char c (join sep items) = false.
Proof.
  intros Hsep. induction items as [|x [|y rest] IH]; intros Hall; [done| |].
  - by inversion Hall.
  - rewrite join_cons, !has_char_app. inversion Hall; subst.
    rewrite Hsep, IH by done. by rewrite orb_false_r.
Qed.

Lemma universal_newlines_CRLF s :
  universal_newlines (String CR (String LF s)) = String LF (universal_newlines s).
Proof. reflexivity. Qed.

Lemma universal_newlines_CR d s :
  Ascii.eqb d LF = false ->
  universal_newlines (String CR (String d s))
  = String LF (universal_newlines (String d s)).
Proof.
  intros Hd.
  change (universal_newlines (String CR (String d s)))
    with (if Ascii.eqb d LF then String LF (universal_newlines s)
          else String LF (universal_newlines (String d s))).
  by rewrite Hd.
Qed.

Lemma universal_newlines_other c s :
  Ascii.eqb c CR = false ->
  universal_newlines (String c s) = String c (universal_newlines s).
Proof.
  intros Hc.
  change (universal_newlines (String c s))
    with (if Ascii.eqb c CR then
            match s with
            | String d s'' =>
                if Ascii.eqb d LF then String LF (universal_newlines s'')
                else String LF (universal_newlines s)
            | EmptyString => String LF EmptyString
            end
          else String c (universal_newlines s)).
  by rewrite Hc.
Qed.

Lemma has_char_CR_LF s : has_char CR (String LF s) = has_char CR s.
Proof. reflexivity. Qed.

Lemma universal_newlines_no_CR s : has_char CR (universal_newlines s) = false.
Proof.
  assert (H : forall n s, String.length s < n ->
              has_char CR (universal_newlines s) = false).
  { clear s. induction n as [|n IH]; intros s Hn; [lia|].
    destruct s as [|c s]; [done|]. simpl in Hn.
    destruct (Ascii.eqb_spec c CR) as [->|Hc].
    - destruct s as [|d s]; [done|]. simpl in Hn.
      destruct (Ascii.eqb_spec d LF) as [->|Hd].
      + rewrite universal_newlines_CRLF, has_char_CR_LF. apply IH. lia.
      + rewrite universal_newlines_CR by by apply Ascii.eqb_neq.
        rewrite has_char_CR_LF. apply IH. simpl. lia.
    - apply Ascii.eqb_neq in Hc. rewrite universal_newlines_other by done.
      simpl. rewrite Hc. apply IH. lia. }
  apply (H (S (String.length s))). lia.
Qed.

Lemma universal_newlines_id s :
  has_char CR s = false -> universal_newlines s = s.
Proof.
  induction s as [|c s IH]; simpl; [done|].
  rewrite orb_false_iff. intros [Hc Hs]. by rewrite Hc, IH.
Qed.

Lemma universal_newlines_idem s :
  universal_newlines (universal_newlines s) = universal_newlines s.
Proof. apply universal_newlines_id, universal_newlines_no_CR. Qed.

Lemma file_lines_clean stored : Forall clean (file_lines stored).
Proof.
  unfold file_lines, clean. apply Forall_and. split.
  - apply split_fields_no_sep.
  - apply split_fields_no_char, universal_newlines_no_CR.
Qed.

(** ** Facts about the scan-and-patch loop *)

Lemma unmatched_not_matches line : unmatched line <-> ~ matches line.
Proof. unfold unmatched, matches. by destruct (str_in MatchLiteral line). Qed.

Lemma py_insert_app {A} (pre post : list A) x :
  py_insert (length pre) x (pre ++ post) = pre ++ x :: post.
Proof. unfold py_insert. by rewrite take_app_length, drop_app_length. Qed.

(** The three mutations of lines 21 to 24 at a position [length pre] whose
    line is [line]: none can fault, and [line] is the one overwritten. *)
Lemma patch_site pre line post :
  let i := length pre in
  let lines1 := py_insert i InsertionLiteral0 (pre ++ line :: post) in
  let lines2 := py_insert (i + 1) InsertionLiteral1 lines1 in
  lines2 = pre ++ InsertionLiteral0 :: InsertionLiteral1 :: line :: post /\
  py_setitem (i + 2) ReplacementLiteral lines2
  = Return (pre ++ InsertionLiteral0 :: InsertionLiteral1
                :: ReplacementLiteral :: post).
Proof.
  intros i lines1 lines2.
  assert (E1 : lines1 = (pre ++ [InsertionLiteral0]) ++ line :: post).
  { subst lines1 i. rewrite py_insert_app. by rewrite <- app_assoc. }
  assert (E2 : lines2 = (pre ++ [InsertionLiteral0; InsertionLiteral1])
                        ++ line :: post).
  { subst lines2. rewrite E1.
    replace (i + 1) with (length (pre ++ [InsertionLiteral0]))
      by (rewrite length_app; simpl; lia).
    rewrite py_insert_app. by rewrite <- !app_assoc. }
  rewrite E2. split; [by rewrite <- app_assoc|].
  unfold py_setitem. rewrite !length_app. simpl.
  destruct (decide _) as [_|Hge]; [|lia].
  f_equal.
  replace (i + 2) with (length (pre ++ [InsertionLiteral0; InsertionLiteral1]) + 0)
    by (rewrite length_app; simpl; lia).
  rewrite insert_app_r. simpl. by rewrite <- app_assoc.
Qed.

Lemma scan_unmatched i pending lines :
  Forall unmatched pending -> scan i pending lines = Return lines.
Proof.
  revert i. induction pending as [|line pending IH]; intros i Hall; [done|].
  inversion Hall as [|?? Hline Hrest]; subst. simpl.
  unfold unmatched in Hline. rewrite Hline. by apply IH.
Qed.

Lemma scan_found pre mid line post :
  Forall unmatched mid -> matches line ->
  scan (length pre) (mid ++ line :: post) (pre ++ mid ++ line :: post)
  = Return (pre ++ mid ++ InsertionLiteral0 :: InsertionLiteral1
                :: ReplacementLiteral :: post).
Proof.
  revert pre. induction mid as [|m mid IH]; intros pre Hall Hline; simpl.
  - unfold matches in Hline. rewrite Hline. apply patch_site.
  - inversion Hall as [|?? Hm Hrest]; subst.
    unfold unmatched in Hm. rewrite Hm.
    specialize (IH (pre ++ [m]) Hrest Hline).
    rewrite length_app, <- !app_assoc in IH. simpl in IH.
    by rewrite Nat.add_1_r in IH.
Qed.

(** Either no line passes the test, or the lines split around the first
    one that does. *)
Lemma lines_decompose lines :
  Forall unmatched lines \/
  exists pre line post,
    lines = pre ++ line :: post /\ Forall unmatched pre /\ matches line.
Proof.
  induction lines as [|l lines IH].
  - left. constructor.
  - destruct (str_in MatchLiteral l) eqn:Hl.
    + right. exists [], l, lines. by repeat split.
    + destruct IH as [Hall | (pre & line & post & -> & Hpre & Hline)].
      * left. by constructor.
      * right. exists (l :: pre), line, post. repeat split; [|done].
        by constructor.
Qed.

Lemma patch_lines_unmatched lines :
  Forall unmatched lines -> patch_lines lines = Return lines.
Proof. apply scan_unmatched. Qed.

Lemma patch_lines_found pre line post :
  Forall unmatched pre -> matches line ->
  patch_lines (pre ++ line :: post)
  = Return (pre ++ InsertionLiteral0 :: InsertionLiteral1
                :: ReplacementLiteral :: post).
Proof. intros Hpre Hline. apply (scan_found [] pre line post); done. Qed.

Lemma first_match_unmatched lines :
  Forall unmatched lines -> first_match lines = None.
Proof.
  induction 1 as [|l lines Hl _ IH]; [done|]. simpl.
  unfold unmatched in Hl. by rewrite Hl, IH.
Qed.

Lemma first_match_found pre line post :
  Forall unmatched pre -> matches line ->
  first_match (pre ++ line :: post) = Some (length pre).
Proof.
  intros Hpre Hline. induction Hpre as [|l pre Hl _ IH]; simpl.
  - unfold matches in Hline. by rewrite Hline.
  - unfold unmatched in Hl. by rewrite Hl, IH.
Qed.

(** The loop, read as "find the first index, patch there". *)
Lemma patch_lines_first_match lines :
  patch_lines lines =
  Return match first_match lines with
         | None => lines
         | Some i => take i lines
                     ++ InsertionLiteral0 :: InsertionLiteral1
                     :: ReplacementLiteral :: drop (S i) lines
         end.
Proof.
  destruct (lines_decompose lines)
    as [Hall | (pre & line & post & -> & Hpre & Hline)].
  - by rewrite patch_lines_unmatched, first_match_unmatched.
  - rewrite patch_lines_found, first_match_found by done.
    rewrite take_app_length.
    rewrite (cons_middle line), app_assoc.
    replace (S (length pre)) with (length (pre ++ [line]))
      by (rewrite length_app; simpl; lia).
    by rewrite drop_app_length.
Qed.

Lemma literals_unmatched :
  unmatched InsertionLiteral0 /\ unmatched InsertionLiteral1 /\
  unmatched ReplacementLiteral.
Proof. by vm_compute. Qed.

Lemma literals_clean :
  clean InsertionLiteral0 /\ clean InsertionLiteral1 /\
  clean ReplacementLiteral.
Proof. by vm_compute. Qed.

Lemma patch_lines_patched lines : patch_lines lines = Return (patched lines).
Proof. apply patch_lines_first_match. Qed.

Lemma patched_unmatched lines : Forall unmatched lines -> patched lines = lines.
Proof. intros H. unfold patched. by rewrite first_match_unmatched. Qed.

Lemma patched_found pre line post :
  Forall unmatched pre -> matches line ->
  patched (pre ++ line :: post)
  = pre ++ InsertionLiteral0 :: InsertionLiteral1 :: ReplacementLiteral :: post.
Proof.
  intros Hpre Hline.
  pose proof (patch_lines_found pre line post Hpre Hline) as H.
  rewrite patch_lines_patched in H. by injection H.
Qed.

Lemma matches_contains line : matches line <-> contains MatchLiteral line.
Proof. apply str_in_spec. Qed.

Lemma unmatched_contains line : unmatched line <-> ~ contains MatchLiteral line.
Proof. by rewrite unmatched_not_matches, matches_contains. Qed.

Lemma first_match_Some lines i :
  first_match lines = Some i <->
  (exists line, lines !! i = Some line /\ matches line) /\
  (forall k l, k < i -> lines !! k = Some l -> unmatched l).
Proof.
  revert i. induction lines as [|x lines IH]; intros i; simpl.
  - split; [done | by intros [(l & Hl & _) _]].
  - destruct (str_in MatchLiteral x) eqn:Hx.
    + split.
      * intros [= <-]. split; [by exists x | intros; lia].
      * intros [_ Hbefore]. destruct i as [|i]; [done|].
        specialize (Hbefore 0 x ltac:(lia) eq_refl).
        unfold unmatched in Hbefore. congruence.
    + destruct i as [|i].
      * split.
        -- destruct (first_match lines); discriminate.
        -- intros [(l & [= <-] & Hl) _]. unfold matches in Hl. congruence.
      * split.
        -- intros Hfm.
           assert (Hj : first_match lines = Some i).
           { destruct (first_match lines); simpl in Hfm; [|done].
             by injection Hfm as ->. }
           apply IH in Hj as [Hat Hbefore].
           split; [done|]. intros [|k] l Hk Hl; simpl in Hl.
           ++ by injection Hl as <-.
           ++ apply (Hbefore k); [lia | done].
        -- intros [Hat Hbefore].
           assert (first_match lines = Some i) as ->; [|done].
           apply IH. split; [done|].
           intros k l Hk Hl. apply (Hbefore (S k)); [lia | done].
Qed.

Lemma first_match_None lines :
  first_match lines = None <-> Forall unmatched lines.
Proof.
  split; [|apply first_match_unmatched].
  induction lines as [|x lines IH]; simpl; [constructor|].
  destruct (str_in MatchLiteral x) eqn:Hx; [done|].
  destruct (first_match lines); [done|]. intros _. constructor; [done | by apply IH].
Qed.

Lemma first_match_split lines i :
  first_match lines = Some i ->
  exists line,
    lines = take i lines ++ line :: drop (S i) lines /\
    length (take i lines) = i /\
    Forall unmatched (take i lines) /\ matches line.
Proof.
  intros Hfm. apply first_match_Some in Hfm as [(line & Hat & Hline) Hbefore].
  exists line. repeat split; [| |  |done].
  - by rewrite take_drop_middle.
  - apply length_take_le. apply lookup_lt_Some in Hat. lia.
  - apply Forall_lookup. intros k l Hk.
    apply lookup_take_Some in Hk as [Hl Hlt]. by apply (Hbefore k).
Qed.

Lemma splice_lookup {A} (pre post : list A) (x a b c : A) (k : nat) :
  (k < length pre ->
   (pre ++ a :: b :: c :: post) !! k = (pre ++ x :: post) !! k) /\
  (length pre < k ->
   (pre ++ a :: b :: c :: post) !! (k + 2) = (pre ++ x :: post) !! k).
Proof.
  split; intros Hk.
  - by rewrite !lookup_app_l by lia.
  - assert (exists n, k = length pre + S n) as [n ->]
      by (exists (k - length pre - 1); lia).
    rewrite !lookup_app_r by lia.
    replace (length pre + S n + 2 - length pre) with (S (S (S n))) by lia.
    replace (length pre + S n - length pre) with (S n) by lia.
    done.
Qed.

Lemma splice_sites {A} (pre post : list A) (a b c : A) :
  (pre ++ a :: b :: c :: post) !! length pre = Some a /\
  (pre ++ a :: b :: c :: post) !! (length pre + 1) = Some b /\
  (pre ++ a :: b :: c :: post) !! (length pre + 2) = Some c.
Proof.
  repeat split; rewrite lookup_app_r by lia.
  - by replace (length pre - length pre) with 0 by lia.
  - by replace (length pre + 1 - length pre) with 1 by lia.
  - by replace (length pre + 2 - length pre) with 2 by lia.
Qed.

(** ** The claims about the scan-and-patch step *)

(** C2, as amended: the scan selects the first index whose line CONTAINS
    MatchLiteral as a contiguous, case-sensitive run of characters (the
    test of line 19 is [in], not [==]); a line that holds MatchLiteral
    together with other text, such as leading indentation, is selected as
    the patch site, and the patch is applied there. *)
Theorem C2_scan_selects_first_containing_line (lines : list string) :
  patch_lines lines = Return (patched lines) /\
  (forall i,
     first_match lines = Some i <->
     (exists line, lines !! i = Some line /\ contains MatchLiteral line) /\
     (forall k l, k < i -> lines !! k = Some l -> ~ contains MatchLiteral l)) /\
  (first_match lines = None <->
   Forall (fun l => ~ contains MatchLiteral l) lines) /\
  (forall indent tail,
     patch_lines ((indent +:+ MatchLiteral +:+ tail) :: lines)
     = Return (InsertionLiteral0 :: InsertionLiteral1
               :: ReplacementLiteral :: lines)).
Proof.
  split; [apply patch_lines_patched|]. split; [|split].
  - intros i. rewrite first_match_Some. split.
    + intros [(line & Hat & Hline) Hbefore]. split.
      * exists line. split; [done | by apply matches_contains].
      * intros k l Hk Hl. apply unmatched_contains. by apply (Hbefore k).
    + intros [(line & Hat & Hline) Hbefore]. split.
      * exists line. split; [done | by apply matches_contains].
      * intros k l Hk Hl. apply unmatched_contains. by apply (Hbefore k).
  - rewrite first_match_None. apply Forall_iff. intros l.
    apply unmatched_contains.
  - intros indent tail.
    apply (patch_lines_found [] (indent +:+ MatchLiteral +:+ tail) lines).
    + constructor.
    + apply matches_contains. by exists indent, tail.
Qed.

(** C2, as stated, fails: the target line behind six spaces of indentation
    is not equal to MatchLiteral, yet index 0 is selected and patched. *)
Lemma C2_counterexample :
  indented_site <> MatchLiteral /\
  first_match [indented_site] = Some 0 /\
  patch_lines [indented_site]
  = Return [InsertionLiteral0; InsertionLiteral1; ReplacementLiteral].
Proof. repeat split; by vm_compute. Qed.

(** C3, as amended: on the lines ["a"; MatchLiteral; "b"] the patch step
    produces "a", the two inserted lines and the replacement line, each of
    the three starting with the six spaces its literal carries in the
    script, then "b". *)
Theorem C3_concrete_scenario :
  patch_lines ["a"%string; MatchLiteral; "b"%string]
  = Return ["a"%string;
            "      // Clean up potential spacing in month names"%string;
            "      month = month.replace(/\s+/g, '').toLowerCase();"%string;
            "      const monthNum = months[month] || '01';"%string;
            "b"%string].
Proof. reflexivity. Qed.

(** C3, as stated, fails: the lines the claim lists, without indentation
    (the backslash read as the escape it is in the list notation, or kept
    doubled), are not the lines produced. *)
Lemma C3_counterexample :
  patch_lines ["a"%string; MatchLiteral; "b"%string]
  <> Return ["a"%string;
             "// Clean up potential spacing in month names"%string;
             "month = month.replace(/\s+/g, '').toLowerCase();"%string;
             "const monthNum = months[month] || '01';"%string;
             "b"%string] /\
  patch_lines ["a"%string; MatchLiteral; "b"%string]
  <> Return ["a"%string;
             "// Clean up potential spacing in month names"%string;
             "month = month.replace(/\\s+/g, '').toLowerCase();"%string;
             "const monthNum = months[month] || '01';"%string;
             "b"%string].
Proof. split; by vm_compute. Qed.

(** The loop patches the lowest matching index only: the two inserted
    lines and the replacement stand at [i], [i + 1] and [i + 2], every
    line before [i] keeps its place, and every line after [i], a later
    matching line included, is untouched, two places further down. *)
Lemma patch_lines_only_first_match
    (lines : list string) (i j : nat) (first later : string) :
  lines !! i = Some first -> matches first ->
  (forall k l, k < i -> lines !! k = Some l -> unmatched l) ->
  i < j -> lines !! j = Some later -> matches later ->
  exists out,
    patch_lines lines = Return out /\
    length out = length lines + 2 /\
    out !! i = Some InsertionLiteral0 /\
    out !! (i + 1) = Some InsertionLiteral1 /\
    out !! (i + 2) = Some ReplacementLiteral /\
    out !! (j + 2) = Some later /\
    (forall k, k < i -> out !! k = lines !! k) /\
    (forall k, i < k -> out !! (k + 2) = lines !! k).
Proof.
  intros Hi Hfirst Hbefore Hij Hj Hlater.
  assert (Hfm : first_match lines = Some i).
  { apply first_match_Some. split; [by exists first | done]. }
  destruct (first_match_split lines i Hfm) as (line & Hsplit & Hlen & Hpre & Hline).
  remember (take i lines) as pre eqn:Epre.
  remember (drop (S i) lines) as post eqn:Epost.
  clear Epre Epost Hfm. subst lines i.
  exists (pre ++ InsertionLiteral0 :: InsertionLiteral1
              :: ReplacementLiteral :: post).
  assert (Hafter : forall k, length pre < k ->
            (pre ++ InsertionLiteral0 :: InsertionLiteral1
                 :: ReplacementLiteral :: post) !! (k + 2)
            = (pre ++ line :: post) !! k).
  { intros k Hk. by apply splice_lookup. }
  split; [|split; [|split; [|split; [|split; [|split; [|split]]]]]].
  - by apply patch_lines_found.
  - rewrite !length_app. simpl. lia.
  - apply splice_sites.
  - apply splice_sites.
  - apply splice_sites.
  - by rewrite Hafter.
  - intros k Hk. by apply splice_lookup.
  - done.
Qed.

(** C10: the patch step never leaves the list. For every text read, the
    scan-and-patch phase returns (it raises nothing, IndexError included);
    and wherever the matched line stands, behind [pre] and before [post],
    the last line of the file included ([post] empty), the two insertions
    move it to index [i + 2] of the lengthened list, which is a valid
    index, so the assignment of line 24 succeeds and overwrites it. *)
Theorem C10_patch_step_in_bounds (content : string) :
  (exists out, patch_lines (split LF content) = Return out) /\
  (forall e, patch_lines (split LF content) <> Raise e) /\
  (forall pre line post,
     let i := length pre in
     let lines1 := py_insert i InsertionLiteral0 (pre ++ line :: post) in
     let lines2 := py_insert (i + 1) InsertionLiteral1 lines1 in
     lines2 !! (i + 2) = Some line /\
     i + 2 < length lines2 /\
     py_setitem (i + 2) ReplacementLiteral lines2
     = Return (pre ++ InsertionLiteral0 :: InsertionLiteral1
                   :: ReplacementLiteral :: post)) /\
  (forall pre line,
     Forall unmatched pre -> matches line ->
     patch_lines (pre ++ [line])
     = Return (pre ++ [InsertionLiteral0; InsertionLiteral1;
                       ReplacementLiteral])).
Proof.
  split; [|split; [|split]].
  - exists (patched (split LF content)). apply patch_lines_patched.
  - intros e. by rewrite patch_lines_patched.
  - intros pre line post i lines1 lines2.
    destruct (patch_site pre line post) as [E2 Hset].
    fold i in E2, Hset. fold lines1 in E2, Hset. fold lines2 in E2, Hset.
    rewrite E2 in *. split; [|split; [|done]].
    + apply (splice_sites pre post InsertionLiteral0 InsertionLiteral1 line).
    + rewrite length_app. simpl. lia.
  - intros pre line Hpre Hline. by apply patch_lines_found.
Qed.

Lemma ends_with_LF_cons c t :
  ends_with_LF t = true -> ends_with_LF (String c t) = true.
Proof. by destruct t. Qed.

(** Reading turns a final line break of either style into a final ["\n"]. *)
Lemma universal_newlines_keeps_final_break stored :
  ends_with_break stored = true ->
  ends_with_LF (universal_newlines stored) = true.
Proof.
  assert (H : forall n s, String.length s < n -> ends_with_break s = true ->
              ends_with_LF (universal_newlines s) = true).
  { clear stored. induction n as [|n IH]; intros s Hn Hs; [lia|].
    destruct s as [|c s]; [done|]. simpl in Hn.
    destruct (Ascii.eqb_spec c CR) as [->|Hc].
    - destruct s as [|d s]; [done|]. simpl in Hn.
      change (ends_with_break (String d s) = true) in Hs.
      destruct (Ascii.eqb_spec d LF) as [->|Hd].
      + rewrite universal_newlines_CRLF.
        destruct s as [|d' s]; [done|].
        apply ends_with_LF_cons, IH; [simpl in *; lia | done].
      + rewrite universal_newlines_CR by by apply Ascii.eqb_neq.
        apply ends_with_LF_cons, IH; [simpl in *; lia | done].
    - apply Ascii.eqb_neq in Hc. rewrite universal_newlines_other by done.
      destruct s as [|d s].
      + simpl in *. by rewrite Hc, orb_false_r in Hs.
      + apply ends_with_LF_cons, IH; [simpl in *; lia | done]. }
  apply (H (S (String.length stored))). lia.
Qed.

(** ** Runs of the script *)

Lemma file_lines_join lines :
  lines <> [] -> Forall clean lines -> file_lines (join [: LF :] lines) = lines.
Proof.
  intros Hne Hclean. apply Forall_and in Hclean as [Hlf Hcr].
  unfold file_lines.
  rewrite universal_newlines_id by (by apply join_no_char).
  by apply split_join.
Qed.

Lemma count_matches_app l1 l2 :
  count_matches (l1 ++ l2) = count_matches l1 + count_matches l2.
Proof. unfold count_matches. by rewrite List.filter_app, length_app. Qed.

Lemma count_matches_zero lines :
  count_matches lines = 0 <-> Forall unmatched lines.
Proof.
  unfold count_matches, unmatched.
  induction lines as [|l lines IH]; simpl; [by split; [constructor|]|].
  destruct (str_in MatchLiteral l) eqn:Hl; simpl.
  - split; [lia | intros H; inversion H; congruence].
  - rewrite IH. split; [by constructor | by intros H; inversion H].
Qed.

(** With at most one matching line, the lines split around it, or none
    matches. *)
Lemma count_matches_le_1 lines :
  count_matches lines <= 1 ->
  Forall unmatched lines \/
  exists pre line post,
    lines = pre ++ line :: post /\
    Forall unmatched pre /\ matches line /\ Forall unmatched post.
Proof.
  intros Hle.
  destruct (lines_decompose lines)
    as [Hall | (pre & line & post & -> & Hpre & Hline)]; [by left|].
  right. exists pre, line, post. repeat split; [done..|].
  apply count_matches_zero.
  rewrite count_matches_app in Hle.
  change (line :: post) with ([line] ++ post) in Hle.
  rewrite count_matches_app in Hle.
  assert (count_matches [line] = 1)
    by (unfold count_matches; simpl; unfold matches in Hline; by rewrite Hline).
  lia.
Qed.

Lemma patched_nonempty lines : lines <> [] -> patched lines <> [].
Proof.
  intros Hne.
  destruct (lines_decompose lines)
    as [Hall | (pre & line & post & -> & Hpre & Hline)].
  - by rewrite patched_unmatched.
  - rewrite patched_found by done. by destruct pre.
Qed.

Lemma patched_clean lines : Forall clean lines -> Forall clean (patched lines).
Proof.
  intros Hclean.
  destruct (lines_decompose lines)
    as [Hall | (pre & line & post & -> & Hpre & Hline)].
  - by rewrite patched_unmatched.
  - rewrite patched_found by done.
    apply Forall_app in Hclean as [Hcpre Hcrest].
    inversion Hcrest as [|?? _ Hcpost]; subst.
    destruct literals_clean as (H0 & H1 & H2).
    apply Forall_app. split; [done|]. by repeat constructor.
Qed.

Lemma patched_unmatched_after lines :
  count_matches lines <= 1 -> Forall unmatched (patched lines).
Proof.
  intros Hle.
  destruct (count_matches_le_1 lines Hle)
    as [Hall | (pre & line & post & -> & Hpre & Hline & Hpost)].
  - by rewrite patched_unmatched.
  - rewrite patched_found by done.
    destruct literals_unmatched as (H0 & H1 & H2).
    apply Forall_app. split; [done|]. by repeat constructor.
Qed.

Section ScriptFacts.

Variable exn_str : py_exn -> string.

(** A readable, writable text file: the run succeeds and stores the
    patched lines, joined. *)
Lemma fix_date_parsing_ok w p f stored :
  w_fs w !! p = Some f ->
  f_readable f = true -> f_writable f = true -> f_data f = Text stored ->
  fix_date_parsing exn_str p w
  = (Return true,
     World (<[p := File true true
                     (Text (join [: LF :] (patched (file_lines stored))))]>
              (w_fs w))
           (w_stdout w ++ [success_message])
           (w_ops w ++ [OpenRead p; OpenWrite p])).
Proof.
  intros Hf Hr Hw Hd.
  unfold fix_date_parsing, try_except, try_block, io_bind, read_text.
  rewrite Hf, Hr, Hd. unfold io_lift.
  rewrite patch_lines_patched. unfold write_text, record_op. simpl.
  rewrite Hf, Hw, Hr. unfold print, io_ret. simpl.
  by rewrite <- app_assoc.
Qed.

Lemma fix_date_parsing_missing w p :
  w_fs w !! p = None ->
  fix_date_parsing exn_str p w
  = (Return false,
     World (w_fs w)
           (w_stdout w ++ [error_prefix +:+ exn_str (FileNotFoundError p)])
           (w_ops w ++ [OpenRead p])).
Proof.
  intros Hf.
  unfold fix_date_parsing, try_except, try_block, io_bind, read_text.
  by rewrite Hf.
Qed.

Lemma fix_date_parsing_unreadable w p f :
  w_fs w !! p = Some f -> f_readable f = false ->
  fix_date_parsing exn_str p w
  = (Return false,
     World (w_fs w)
           (w_stdout w ++ [error_prefix +:+ exn_str (PermissionError p)])
           (w_ops w ++ [OpenRead p])).
Proof.
  intros Hf Hr.
  unfold fix_date_parsing, try_except, try_block, io_bind, read_text.
  by rewrite Hf, Hr.
Qed.

Lemma fix_date_parsing_undecodable w p f :
  w_fs w !! p = Some f -> f_readable f = true -> f_data f = Undecodable ->
  fix_date_parsing exn_str p w
  = (Return false,
     World (w_fs w)
           (w_stdout w ++ [error_prefix +:+ exn_str (UnicodeDecodeError p)])
           (w_ops w ++ [OpenRead p])).
Proof.
  intros Hf Hr Hd.
  unfold fix_date_parsing, try_except, try_block, io_bind, read_text.
  by rewrite Hf, Hr, Hd.
Qed.

Lemma fix_date_parsing_unwritable w p f stored :
  w_fs w !! p = Some f ->
  f_readable f = true -> f_data f = Text stored -> f_writable f = false ->
  fix_date_parsing exn_str p w
  = (Return false,
     World (w_fs w)
           (w_stdout w ++ [error_prefix +:+ exn_str (PermissionError p)])
           (w_ops w ++ [OpenRead p; OpenWrite p])).
Proof.
  intros Hf Hr Hd Hw.
  unfold fix_date_parsing, try_except, try_block, io_bind, read_text.
  rewrite Hf, Hr, Hd. unfold io_lift.
  rewrite patch_lines_patched. unfold write_text, record_op. simpl.
  rewrite Hf, Hw. unfold except_block, io_bind, print, io_ret. simpl.
  by rewrite <- app_assoc.
Qed.

(** The try block either completes with [true] or raises a fault of the
    read or of the write. *)
Lemma try_block_cases w p :
  (exists f stored,
     w_fs w !! p = Some f /\ f_readable f = true /\
     f_writable f = true /\ f_data f = Text stored /\
     exists w1, try_block p w = (Return true, w1)) \/
  ((~ exists f stored,
       w_fs w !! p = Some f /\ f_readable f = true /\
       f_writable f = true /\ f_data f = Text stored) /\
   exists e w1,
     try_block p w = (Raise e, w1) /\ e <> IndexError /\
     w_fs w1 = w_fs w /\ w_stdout w1 = w_stdout w).
Proof.
  unfold try_block, io_bind, read_text.
  destruct (w_fs w !! p) as [f|] eqn:Hf.
  - destruct (f_readable f) eqn:Hr.
    + destruct (f_data f) as [stored|] eqn:Hd.
      * unfold io_lift. rewrite patch_lines_patched.
        unfold write_text, record_op. simpl. rewrite Hf.
        destruct (f_writable f) eqn:Hw.
        -- left. exists f, stored. repeat split; [done..|].
           unfold print, io_ret. simpl. eauto.
        -- right. split.
           ++ intros (f' & s' & [= <-] & _ & Hw' & _). congruence.
           ++ eexists _, _. repeat split; done.
      * right. split.
        -- intros (f' & s' & [= <-] & _ & _ & Hd'). congruence.
        -- eexists _, _. repeat split; done.
    + right. split.
      * intros (f' & s' & [= <-] & Hr' & _). congruence.
      * eexists _, _. repeat split; done.
  - right. split.
    + intros (f' & s' & [=] & _).
    + eexists _, _. repeat split; done.
Qed.

(** A successful run, and what the next read of the path finds. *)
Lemma fix_date_parsing_step w p f stored :
  w_fs w !! p = Some f ->
  f_readable f = true -> f_writable f = true -> f_data f = Text stored ->
  fst (fix_date_parsing exn_str p w) = Return true /\
  w_fs (snd (fix_date_parsing exn_str p w)) !! p
  = Some (File true true
            (Text (join [: LF :] (patched (file_lines stored))))) /\
  has_char CR (join [: LF :] (patched (file_lines stored))) = false /\
  file_lines (join [: LF :] (patched (file_lines stored)))
  = patched (file_lines stored).
Proof.
  intros Hf Hr Hw Hd.
  rewrite (fix_date_parsing_ok w p f stored) by done. simpl.
  pose proof (patched_clean _ (file_lines_clean stored)) as Hclean.
  split; [done|]. split; [apply lookup_insert_eq|]. split.
  - apply join_no_char; [done|]. by apply Forall_and in Hclean as [_ Hcr].
  - apply file_lines_join; [|done]. apply patched_nonempty, split_nonempty.
Qed.

(** An unmatched file that holds a carriage return is not written back as
    it was stored: what is written is the text as read. *)
Lemma unmatched_CR_file_changes w p f stored :
  w_fs w !! p = Some f ->
  f_readable f = true -> f_writable f = true -> f_data f = Text stored ->
  Forall unmatched (file_lines stored) ->
  has_char CR stored = true ->
  fst (fix_date_parsing exn_str p w) = Return true /\
  exists written,
    w_fs (snd (fix_date_parsing exn_str p w)) !! p
    = Some (File true true (Text written)) /\
    written = universal_newlines stored /\
    written <> stored.
Proof.
  intros Hf Hr Hw Hd Hall Hcr.
  destruct (fix_date_parsing_step w p f stored Hf Hr Hw Hd)
    as (Hret & Hf' & _).
  split; [done|]. eexists. split; [exact Hf'|].
  rewrite patched_unmatched by done.
  unfold file_lines. rewrite join_split. split; [done|].
  intros Heq. pose proof (universal_newlines_no_CR stored) as Hno.
  rewrite Heq in Hno. congruence.
Qed.

End ScriptFacts.

(** ** The claims about whole runs *)

Section RunClaims.

Variable exn_str : py_exn -> string.

(** C1, as amended: for every readable, writable text file whose line
    sequence has a line containing MatchLiteral, the first such line
    standing behind the lines [pre] and before the lines [post] (so in
    particular for a file with exactly one line equal to MatchLiteral
    and no earlier line containing it), after the run the file's line
    sequence is [pre] unchanged, the two InsertionLiterals, then
    ReplacementLiteral where the matched line stood (its text is gone),
    then [post] unchanged and in order. *)
Theorem C1_first_containing_line_is_patched
    (w : world) (p : string) (f : file) (stored : string)
    (pre post : list string) (line : string) :
  w_fs w !! p = Some f ->
  f_readable f = true -> f_writable f = true -> f_data f = Text stored ->
  file_lines stored = pre ++ line :: post ->
  Forall unmatched pre -> matches line ->
  fst (fix_date_parsing exn_str p w) = Return true /\
  exists stored',
    w_fs (snd (fix_date_parsing exn_str p w)) !! p
    = Some (File true true (Text stored')) /\
    file_lines stored'
    = pre ++ InsertionLiteral0 :: InsertionLiteral1
          :: ReplacementLiteral :: post.
Proof.
  intros Hf Hr Hw Hd Hlines Hpre Hline.
  rewrite (fix_date_parsing_ok exn_str w p f stored) by done.
  split; [done|]. simpl.
  eexists. split; [apply lookup_insert_eq|].
  pose proof (file_lines_clean stored) as Hclean.
  pose proof (patched_clean _ Hclean) as Hpclean.
  rewrite Hlines in *. rewrite patched_found in * by done.
  apply file_lines_join; [by destruct pre | done].
Qed.

(** C4, as amended: for every readable, writable text file none of whose
    lines contains MatchLiteral, the run reports success and writes back
    the text as it was read: the stored content with its line endings
    normalised, and the very same content when it holds no carriage
    return; no other file changes. *)
Theorem C4_no_match_rewrites_same_text
    (w : world) (p : string) (f : file) (stored : string) :
  w_fs w !! p = Some f ->
  f_readable f = true -> f_writable f = true -> f_data f = Text stored ->
  Forall unmatched (file_lines stored) ->
  fst (fix_date_parsing exn_str p w) = Return true /\
  w_fs (snd (fix_date_parsing exn_str p w)) !! p
  = Some (File true true (Text (universal_newlines stored))) /\
  (forall q, q <> p ->
     w_fs (snd (fix_date_parsing exn_str p w)) !! q = w_fs w !! q) /\
  (has_char CR stored = false ->
   w_fs (snd (fix_date_parsing exn_str p w)) = w_fs w).
Proof.
  intros Hf Hr Hw Hd Hall.
  rewrite (fix_date_parsing_ok exn_str w p f stored) by done. simpl.
  rewrite patched_unmatched by done.
  unfold file_lines. rewrite join_split.
  split; [done|]. split; [apply lookup_insert_eq|]. split.
  - intros q Hq. by apply lookup_insert_ne.
  - intros Hcr. rewrite universal_newlines_id by done.
    apply insert_id. rewrite Hf. f_equal.
    destruct f as [r wr d]. simpl in *. by subst.
Qed.

(** C6: the result is [True] exactly when the read, scan and write of
    the try block complete without a fault, which depends on the file
    being there, readable, decodable and writable and not on any line
    matching; it is [False] exactly when the try block raises, every
    such fault being one of the read or of the write, caught, and
    reported on standard output behind "Error updating file: "; and the
    exit status of the script is 0 for [True] and 1 for [False]. *)
Theorem C6_result_reports_faults (w : world) (p : string) :
  (fst (fix_date_parsing exn_str p w) = Return true <->
   exists w1, try_block p w = (Return true, w1)) /\
  (fst (fix_date_parsing exn_str p w) = Return false <->
   exists e w1, try_block p w = (Raise e, w1)) /\
  (fst (fix_date_parsing exn_str p w) = Return true <->
   exists f stored,
     w_fs w !! p = Some f /\ f_readable f = true /\
     f_writable f = true /\ f_data f = Text stored) /\
  (fst (fix_date_parsing exn_str p w) = Return true ->
   w_stdout (snd (fix_date_parsing exn_str p w))
   = w_stdout w ++ [success_message]) /\
  (forall e w1,
     try_block p w = (Raise e, w1) ->
     e <> IndexError /\
     fst (fix_date_parsing exn_str p w) = Return false /\
     w_stdout (snd (fix_date_parsing exn_str p w))
     = w_stdout w ++ [error_prefix +:+ exn_str e]) /\
  fst (main exn_str w)
  = match fst (fix_date_parsing exn_str file_path w) with
    | Return true => 0%Z
    | _ => 1%Z
    end.
Proof.
  assert (Hmain : fst (main exn_str w)
                  = match fst (fix_date_parsing exn_str file_path w) with
                    | Return true => 0%Z
                    | _ => 1%Z
                    end).
  { unfold main.
    by destruct (fix_date_parsing exn_str file_path w) as [[[|]|e] w']. }
  destruct (try_block_cases w p)
    as [(f & stored & Hf & Hr & Hw & Hd & w1 & Htb)
       |(Hnot & e & w1 & Htb & Hne & Hfs & Hout)].
  - rewrite (fix_date_parsing_ok exn_str w p f stored) by done. simpl.
    split; [|split; [|split; [|split; [|split]]]].
    + split; [intros _; eauto | done].
    + split; [done | intros (e & w2 & He); congruence].
    + split; [intros _; by exists f, stored | done].
    + done.
    + intros e w2 He. congruence.
    + exact Hmain.
  - assert (Hrun : fix_date_parsing exn_str p w
                   = except_block exn_str e w1).
    { unfold fix_date_parsing, try_except. by rewrite Htb. }
    rewrite Hrun. unfold except_block, io_bind, print, io_ret. simpl.
    split; [|split; [|split; [|split; [|split]]]].
    + split; [done | intros (w2 & Hw2); congruence].
    + split; [intros _; eauto | done].
    + split; [done | intros H; by destruct Hnot].
    + done.
    + intros e' w2 He'. rewrite Htb in He'. injection He' as <- <-.
      split; [done|]. split; [done|]. by rewrite Hout.
    + exact Hmain.
Qed.

(** C7: for every path that holds no file, or a file that may not be
    read, the run reports failure, the script exits with status 1, the
    files are what they were (none is created at the path) and the only
    [open] made is the one for reading: the write is never attempted. *)
Theorem C7_unreadable_path_fails_without_write (w : world) (p : string) :
  (w_fs w !! p = None \/
   exists f, w_fs w !! p = Some f /\ f_readable f = false) ->
  fst (fix_date_parsing exn_str p w) = Return false /\
  w_fs (snd (fix_date_parsing exn_str p w)) = w_fs w /\
  w_ops (snd (fix_date_parsing exn_str p w)) = w_ops w ++ [OpenRead p] /\
  (exists e,
     w_stdout (snd (fix_date_parsing exn_str p w))
     = w_stdout w ++ [error_prefix +:+ exn_str e]) /\
  (p = file_path -> fst (main exn_str w) = 1%Z).
Proof.
  intros [Hf | (f & Hf & Hr)].
  - rewrite (fix_date_parsing_missing exn_str w p Hf). simpl.
    repeat split; [eauto|]. intros ->. unfold main.
    by rewrite (fix_date_parsing_missing exn_str w file_path Hf).
  - rewrite (fix_date_parsing_unreadable exn_str w p f Hf Hr). simpl.
    repeat split; [eauto|]. intros ->. unfold main.
    by rewrite (fix_date_parsing_unreadable exn_str w file_path f Hf Hr).
Qed.

(** C8, as amended: for every readable, writable text file with at most
    one line containing MatchLiteral, the file left by a first run has no
    line containing MatchLiteral, and a second run succeeds and leaves
    every file as the first run left it. *)
Theorem C8_second_run_is_no_op
    (w : world) (p : string) (f : file) (stored : string) :
  w_fs w !! p = Some f ->
  f_readable f = true -> f_writable f = true -> f_data f = Text stored ->
  count_matches (file_lines stored) <= 1 ->
  fst (fix_date_parsing exn_str p w) = Return true /\
  (exists stored1,
     w_fs (snd (fix_date_parsing exn_str p w)) !! p
     = Some (File true true (Text stored1)) /\
     count_matches (file_lines stored1) = 0) /\
  fst (fix_date_parsing exn_str p (snd (fix_date_parsing exn_str p w)))
  = Return true /\
  w_fs (snd (fix_date_parsing exn_str p
               (snd (fix_date_parsing exn_str p w))))
  = w_fs (snd (fix_date_parsing exn_str p w)).
Proof.
  intros Hf Hr Hw Hd Hle.
  rewrite (fix_date_parsing_ok exn_str w p f stored) by done. simpl.
  set (lines1 := patched (file_lines stored)).
  assert (Hne : lines1 <> [])
    by (apply patched_nonempty, split_nonempty).
  assert (Hclean : Forall clean lines1)
    by (apply patched_clean, file_lines_clean).
  assert (Hun : Forall unmatched lines1)
    by (by apply patched_unmatched_after).
  assert (Hlines : file_lines (join [: LF :] lines1) = lines1)
    by (by apply file_lines_join).
  set (w1 := World _ _ _).
  assert (Hf1 : w_fs w1 !! p
                = Some (File true true (Text (join [: LF :] lines1))))
    by apply lookup_insert_eq.
  rewrite (fix_date_parsing_ok exn_str w1 p _ _ Hf1) by done. simpl.
  rewrite Hlines, patched_unmatched by done.
  split; [done|]. split; [|split; [done|]].
  - eexists. split; [exact Hf1|]. rewrite Hlines.
    by apply count_matches_zero.
  - apply insert_insert_eq.
Qed.

(** C5, as amended: at most one site is patched per run. For every
    readable, writable text file in whose lines MatchLiteral occurs (as a
    part of the line) at two indices [i < j], [i] being the lowest index
    whose line contains it, the run patches the occurrence at [i] only:
    in the file it leaves, the two inserted lines and the replacement
    stand at [i], [i + 1] and [i + 2], every line before [i] keeps its
    place, and every line after [i], the occurrence at [j] included, is
    untouched, two places further down. *)
Theorem C5_run_patches_lowest_occurrence_only
    (w : world) (p : string) (f : file) (stored : string)
    (i j : nat) (first later : string) :
  w_fs w !! p = Some f ->
  f_readable f = true -> f_writable f = true -> f_data f = Text stored ->
  file_lines stored !! i = Some first -> contains MatchLiteral first ->
  (forall k l, k < i -> file_lines stored !! k = Some l ->
               ~ contains MatchLiteral l) ->
  i < j ->
  file_lines stored !! j = Some later -> contains MatchLiteral later ->
  fst (fix_date_parsing exn_str p w) = Return true /\
  exists stored',
    w_fs (snd (fix_date_parsing exn_str p w)) !! p
    = Some (File true true (Text stored')) /\
    length (file_lines stored') = length (file_lines stored) + 2 /\
    file_lines stored' !! i = Some InsertionLiteral0 /\
    file_lines stored' !! (i + 1) = Some InsertionLiteral1 /\
    file_lines stored' !! (i + 2) = Some ReplacementLiteral /\
    file_lines stored' !! (j + 2) = Some later /\
    (forall k, k < i -> file_lines stored' !! k = file_lines stored !! k) /\
    (forall k, i < k ->
       file_lines stored' !! (k + 2) = file_lines stored !! k).
Proof.
  intros Hf Hr Hw Hd Hi Hfirst Hbefore Hij Hj Hlater.
  destruct (fix_date_parsing_step exn_str w p f stored Hf Hr Hw Hd)
    as (Hret & Hf' & _ & Hlines).
  split; [done|]. eexists. split; [exact Hf'|]. rewrite Hlines.
  assert (Hbefore' : forall k l, k < i -> file_lines stored !! k = Some l ->
                                 unmatched l).
  { intros k l Hk Hl. apply unmatched_contains. by apply (Hbefore k). }
  apply matches_contains in Hfirst, Hlater.
  destruct (patch_lines_only_first_match (file_lines stored) i j first later
              Hi Hfirst Hbefore' Hij Hj Hlater) as (out & Hout & Hrest).
  rewrite patch_lines_patched in Hout. injection Hout as <-. exact Hrest.
Qed.

(** C9: the rewrite does not keep a final line break of the original file
    as it was. There is an unmatched file that ends in a line break and
    whose content after the run differs from the original; and this is so
    for every readable, writable text file none of whose lines contains
    MatchLiteral and which holds a carriage return: the run stores the
    text as it was read, line endings translated, not the original. *)
Theorem C9_final_line_break_not_kept_as_stored :
  (exists stored,
     Forall (fun l => ~ contains MatchLiteral l) (file_lines stored) /\
     ends_with_break stored = true /\
     fst (fix_date_parsing exn_str file_path (world_of stored))
     = Return true /\
     exists written,
       w_fs (snd (fix_date_parsing exn_str file_path (world_of stored)))
       !! file_path
       = Some (File true true (Text written)) /\
       written <> stored) /\
  (forall w p f stored,
     w_fs w !! p = Some f ->
     f_readable f = true -> f_writable f = true -> f_data f = Text stored ->
     Forall (fun l => ~ contains MatchLiteral l) (file_lines stored) ->
     has_char CR stored = true ->
     fst (fix_date_parsing exn_str p w) = Return true /\
     exists written,
       w_fs (snd (fix_date_parsing exn_str p w)) !! p
       = Some (File true true (Text written)) /\
       written = universal_newlines stored /\
       written <> stored).
Proof.
  assert (Hgen : forall w p f stored,
     w_fs w !! p = Some f ->
     f_readable f = true -> f_writable f = true -> f_data f = Text stored ->
     Forall (fun l => ~ contains MatchLiteral l) (file_lines stored) ->
     has_char CR stored = true ->
     fst (fix_date_parsing exn_str p w) = Return true /\
     exists written,
       w_fs (snd (fix_date_parsing exn_str p w)) !! p
       = Some (File true true (Text written)) /\
       written = universal_newlines stored /\
       written <> stored).
  { intros w p f stored Hf Hr Hw Hd Hall Hcr.
    apply (unmatched_CR_file_changes exn_str w p f stored); try done.
    eapply Forall_impl; [exact Hall|]. intros l. apply unmatched_contains. }
  split; [|exact Hgen].
  assert (Hall : Forall (fun l => ~ contains MatchLiteral l)
                   (file_lines crlf_text)).
  { repeat constructor; by apply unmatched_contains. }
  exists crlf_text. split; [exact Hall|]. split; [reflexivity|].
  destruct (Hgen (world_of crlf_text) file_path
              (File true true (Text crlf_text)) crlf_text
              eq_refl eq_refl eq_refl eq_refl Hall eq_refl)
    as (Hret & written & Hw & _ & Hne).
  split; [exact Hret|]. by exists written.
Qed.

End RunClaims.

(** ** The run claims at sample worlds *)

Lemma C1_witness :
  w_fs (world_of scenario_text) !! file_path
  = Some (File true true (Text scenario_text)) /\
  file_lines scenario_text = ["a"%string] ++ MatchLiteral :: ["b"%string] /\
  Forall unmatched ["a"%string] /\
  matches MatchLiteral /\
  fst (fix_date_parsing sample_exn_str file_path (world_of scenario_text))
  = Return true /\
  exists stored',
    w_fs (snd (fix_date_parsing sample_exn_str file_path
                 (world_of scenario_text))) !! file_path
    = Some (File true true (Text stored')) /\
    file_lines stored'
    = ["a"%string] ++ InsertionLiteral0 :: InsertionLiteral1
        :: ReplacementLiteral :: ["b"%string].
Proof.
  assert (H1 : w_fs (world_of scenario_text) !! file_path
               = Some (File true true (Text scenario_text)))
    by reflexivity.
  assert (H2 : file_lines scenario_text
               = ["a"%string] ++ MatchLiteral :: ["b"%string])
    by reflexivity.
  assert (H3 : Forall unmatched ["a"%string])
    by (repeat constructor).
  assert (H4 : matches MatchLiteral) by reflexivity.
  split; [exact H1|]. split; [exact H2|].
  split; [exact H3|]. split; [exact H4|].
  exact (C1_first_containing_line_is_patched sample_exn_str
           (world_of scenario_text) file_path
           (File true true (Text scenario_text)) scenario_text
           ["a"%string] ["b"%string] MatchLiteral
           H1 eq_refl eq_refl eq_refl H2 H3 H4).
Defined.

(** C1, as stated, fails: the file below has exactly one line equal to
    MatchLiteral, its second; the run patches the first line, which only
    contains MatchLiteral, and leaves the second as it was, so the inserted
    lines do not stand before the second line's place and its text is not
    gone. *)
Lemma C1_counterexample :
  file_lines two_sites_text = [indented_site; MatchLiteral] /\
  indented_site <> MatchLiteral /\
  fst (fix_date_parsing sample_exn_str file_path (world_of two_sites_text))
  = Return true /\
  w_fs (snd (fix_date_parsing sample_exn_str file_path
               (world_of two_sites_text))) !! file_path
  = Some (File true true
            (Text (join [: LF :]
                     [InsertionLiteral0; InsertionLiteral1;
                      ReplacementLiteral; MatchLiteral]))) /\
  file_lines (join [: LF :]
                [InsertionLiteral0; InsertionLiteral1;
                 ReplacementLiteral; MatchLiteral])
  = [InsertionLiteral0; InsertionLiteral1; ReplacementLiteral; MatchLiteral] /\
  [InsertionLiteral0; InsertionLiteral1; ReplacementLiteral; MatchLiteral]
  <> [indented_site; InsertionLiteral0; InsertionLiteral1; ReplacementLiteral].
Proof. repeat split; by vm_compute. Qed.

Lemma C4_witness :
  w_fs (world_of plain_text) !! file_path
  = Some (File true true (Text plain_text)) /\
  Forall unmatched (file_lines plain_text) /\
  fst (fix_date_parsing sample_exn_str file_path (world_of plain_text))
  = Return true /\
  w_fs (snd (fix_date_parsing sample_exn_str file_path
               (world_of plain_text))) !! file_path
  = Some (File true true (Text (universal_newlines plain_text))) /\
  (forall q, q <> file_path ->
     w_fs (snd (fix_date_parsing sample_exn_str file_path
                  (world_of plain_text))) !! q
     = w_fs (world_of plain_text) !! q) /\
  (has_char CR plain_text = false ->
   w_fs (snd (fix_date_parsing sample_exn_str file_path
                (world_of plain_text)))
   = w_fs (world_of plain_text)).
Proof.
  assert (H1 : w_fs (world_of plain_text) !! file_path
               = Some (File true true (Text plain_text)))
    by reflexivity.
  assert (H2 : Forall unmatched (file_lines plain_text))
    by (repeat constructor).
  split; [exact H1|]. split; [exact H2|].
  exact (C4_no_match_rewrites_same_text sample_exn_str
           (world_of plain_text) file_path
           (File true true (Text plain_text)) plain_text
           H1 eq_refl eq_refl eq_refl H2).
Defined.

(** C4, as stated, fails: the file below has no line equal to MatchLiteral
    (its one line is the target behind its indentation), yet the run
    replaces its content. *)
Lemma C4_counterexample :
  Forall (fun l => l <> MatchLiteral) (file_lines indented_site) /\
  fst (fix_date_parsing sample_exn_str file_path (world_of indented_site))
  = Return true /\
  w_fs (snd (fix_date_parsing sample_exn_str file_path
               (world_of indented_site))) !! file_path
  = Some (File true true
            (Text (join [: LF :]
                     [InsertionLiteral0; InsertionLiteral1;
                      ReplacementLiteral]))) /\
  join [: LF :] [InsertionLiteral0; InsertionLiteral1; ReplacementLiteral]
  <> universal_newlines indented_site /\
  join [: LF :] [InsertionLiteral0; InsertionLiteral1; ReplacementLiteral]
  <> indented_site.
Proof.
  split; [|repeat split; by vm_compute].
  repeat constructor. by vm_compute.
Qed.

Lemma C7_witness :
  (w_fs empty_world !! file_path = None \/
   exists f, w_fs empty_world !! file_path = Some f /\ f_readable f = false) /\
  fst (fix_date_parsing sample_exn_str file_path empty_world) = Return false /\
  w_fs (snd (fix_date_parsing sample_exn_str file_path empty_world))
  = w_fs empty_world /\
  w_ops (snd (fix_date_parsing sample_exn_str file_path empty_world))
  = w_ops empty_world ++ [OpenRead file_path] /\
  (exists e,
     w_stdout (snd (fix_date_parsing sample_exn_str file_path empty_world))
     = w_stdout empty_world ++ [error_prefix +:+ sample_exn_str e]) /\
  (file_path = file_path -> fst (main sample_exn_str empty_world) = 1%Z).
Proof.
  assert (H : w_fs empty_world !! file_path = None \/
              exists f, w_fs empty_world !! file_path = Some f /\
                        f_readable f = false)
    by (left; reflexivity).
  split; [exact H|].
  exact (C7_unreadable_path_fails_without_write sample_exn_str
           empty_world file_path H).
Defined.

Lemma C8_witness :
  w_fs (world_of scenario_text) !! file_path
  = Some (File true true (Text scenario_text)) /\
  count_matches (file_lines scenario_text) <= 1 /\
  fst (fix_date_parsing sample_exn_str file_path (world_of scenario_text))
  = Return true /\
  (exists stored1,
     w_fs (snd (fix_date_parsing sample_exn_str file_path
                  (world_of scenario_text))) !! file_path
     = Some (File true true (Text stored1)) /\
     count_matches (file_lines stored1) = 0) /\
  fst (fix_date_parsing sample_exn_str file_path
         (snd (fix_date_parsing sample_exn_str file_path
                 (world_of scenario_text))))
  = Return true /\
  w_fs (snd (fix_date_parsing sample_exn_str file_path
               (snd (fix_date_parsing sample_exn_str file_path
                       (world_of scenario_text)))))
  = w_fs (snd (fix_date_parsing sample_exn_str file_path
                 (world_of scenario_text))).
Proof.
  assert (H1 : w_fs (world_of scenario_text) !! file_path
               = Some (File true true (Text scenario_text)))
    by reflexivity.
  assert (H2 : count_matches (file_lines scenario_text) <= 1)
    by (vm_compute; lia).
  split; [exact H1|]. split; [exact H2|].
  exact (C8_second_run_is_no_op sample_exn_str
           (world_of scenario_text) file_path
           (File true true (Text scenario_text)) scenario_text
           H1 eq_refl eq_refl eq_refl H2).
Defined.

(** C8, as stated, fails: on the file below, which holds MatchLiteral on
    two lines, the first run patches the first and the second run patches
    the second, so two runs do not leave what one run leaves. *)
Lemma C8_counterexample :
  file_lines twice_text = [MatchLiteral; MatchLiteral] /\
  w_fs (snd (fix_date_parsing sample_exn_str file_path
               (world_of twice_text))) !! file_path
  = Some (File true true
            (Text (join [: LF :]
                     [InsertionLiteral0; InsertionLiteral1;
                      ReplacementLiteral; MatchLiteral]))) /\
  w_fs (snd (fix_date_parsing sample_exn_str file_path
               (snd (fix_date_parsing sample_exn_str file_path
                       (world_of twice_text))))) !! file_path
  = Some (File true true
            (Text (join [: LF :]
                     [InsertionLiteral0; InsertionLiteral1;
                      ReplacementLiteral;
                      InsertionLiteral0; InsertionLiteral1;
                      ReplacementLiteral]))) /\
  w_fs (snd (fix_date_parsing sample_exn_str file_path
               (snd (fix_date_parsing sample_exn_str file_path
                       (world_of twice_text)))))
  <> w_fs (snd (fix_date_parsing sample_exn_str file_path
                  (world_of twice_text))).
Proof.
  split; [reflexivity|]. split; [by vm_compute|]. split; [by vm_compute|].
  intros Heq.
  assert (H : w_fs (snd (fix_date_parsing sample_exn_str file_path
                (snd (fix_date_parsing sample_exn_str file_path
                        (world_of twice_text))))) !! file_path
              = w_fs (snd (fix_date_parsing sample_exn_str file_path
                             (world_of twice_text))) !! file_path)
    by (by rewrite Heq).
  vm_compute in H. discriminate H.
Qed.

(** ** Further properties of the patch step *)

Lemma count_matches_cons_match line rest :
  matches line -> count_matches (line :: rest) = S (count_matches rest).
Proof. unfold count_matches, matches. simpl. by intros ->. Qed.

Lemma count_matches_cons_unmatched line rest :
  unmatched line -> count_matches (line :: rest) = count_matches rest.
Proof. unfold count_matches, unmatched. simpl. by intros ->. Qed.

Lemma count_matches_unmatched lines :
  Forall unmatched lines -> count_matches lines = 0.
Proof. apply count_matches_zero. Qed.

Lemma count_matches_found pre line post :
  Forall unmatched pre -> matches line ->
  count_matches (pre ++ line :: post) = S (count_matches post) /\
  count_matches (pre ++ InsertionLiteral0 :: InsertionLiteral1
                     :: ReplacementLiteral :: post) = count_matches post.
Proof.
  intros Hpre Hline. destruct literals_unmatched as (H0 & H1 & H2).
  rewrite !count_matches_app, (count_matches_unmatched pre) by done.
  rewrite count_matches_cons_match by done.
  by rewrite !count_matches_cons_unmatched by done.
Qed.

Lemma patched_length lines :
  length (patched lines)
  = length lines + 2 * Nat.min 1 (count_matches lines).
Proof.
  destruct (lines_decompose lines)
    as [Hall | (pre & line & post & -> & Hpre & Hline)].
  - rewrite patched_unmatched, count_matches_unmatched by done. simpl. lia.
  - rewrite patched_found by done.
    destruct (count_matches_found pre line post Hpre Hline) as [-> _].
    rewrite !length_app. simpl. lia.
Qed.

Lemma patched_count lines :
  count_matches (patched lines) = count_matches lines - 1.
Proof.
  destruct (lines_decompose lines)
    as [Hall | (pre & line & post & -> & Hpre & Hline)].
  - rewrite patched_unmatched, count_matches_unmatched by done. done.
  - rewrite patched_found by done.
    destruct (count_matches_found pre line post Hpre Hline) as [-> ->]. lia.
Qed.

(** X4: one pass of the loop patches at most one occurrence: the list it
    returns is two lines longer when some line contains MatchLiteral and as
    long as before otherwise, and it holds one matching line fewer (none,
    when there was none). *)
Theorem patch_lines_counts (lines : list string) :
  exists out,
    patch_lines lines = Return out /\
    length out = length lines + 2 * Nat.min 1 (count_matches lines) /\
    count_matches out = count_matches lines - 1.
Proof.
  exists (patched lines).
  split; [apply patch_lines_patched|].
  split; [apply patched_length | apply patched_count].
Qed.

Lemma patched_snoc_unmatched init last :
  unmatched last -> patched (init ++ [last]) = patched init ++ [last].
Proof.
  intros Hlast.
  destruct (lines_decompose init)
    as [Hall | (pre & line & post & -> & Hpre & Hline)].
  - rewrite (patched_unmatched init) by done.
    apply patched_unmatched, Forall_app. split; [done | by constructor].
  - rewrite <- app_assoc. simpl. rewrite !patched_found by done.
    by rewrite <- app_assoc.
Qed.

Lemma split_final_LF text :
  ends_with_LF text = true ->
  exists init, init <> [] /\ split LF text = init ++ [EmptyString].
Proof.
  induction text as [|c text IH]; [done|]. intros Hend.
  destruct text as [|d text].
  - simpl in Hend. simpl. rewrite Hend. by exists [EmptyString].
  - change (ends_with_LF (String d text) = true) in Hend.
    destruct (IH Hend) as (init & Hne & Hsplit).
    change (split LF (String c (String d text)))
      with (if Ascii.eqb c LF then EmptyString :: split LF (String d text)
            else match split LF (String d text) with
                 | [] => [[: c :]]
                 | field :: fields => String c field :: fields
                 end).
    rewrite Hsplit. destruct (Ascii.eqb c LF).
    + by exists (EmptyString :: init).
    + destruct init as [|x init]; [done|]. by exists (String c x :: init).
Qed.

Lemma ends_with_LF_app a t :
  ends_with_LF t = true -> ends_with_LF (a +:+ t) = true.
Proof.
  intros Ht. induction a as [|c a IH]; [done|].
  simpl. by apply ends_with_LF_cons.
Qed.

Lemma join_final_LF init :
  init <> [] -> ends_with_LF (join [: LF :] (init ++ [EmptyString])) = true.
Proof.
  induction init as [|x [|y rest] IH]; intros Hne; [done| |].
  - simpl. by apply ends_with_LF_app.
  - change ((x :: y :: rest) ++ [EmptyString])
      with (x :: y :: (rest ++ [EmptyString])).
    rewrite join_cons. apply ends_with_LF_app.
    apply ends_with_LF_cons. by apply IH.
Qed.

(** The text written for a text that ends in ["\n"] ends in ["\n"], with
    or without a patched line. *)
Lemma join_patched_keeps_final_LF text :
  ends_with_LF text = true ->
  ends_with_LF (join [: LF :] (patched (split LF text))) = true.
Proof.
  intros Hend. destruct (split_final_LF text Hend) as (init & Hne & ->).
  rewrite patched_snoc_unmatched by reflexivity.
  by apply join_final_LF, patched_nonempty.
Qed.

Lemma split_length sep s : length (split sep s) = S (count_char sep s).
Proof.
  induction s as [|c s IH]; [done|]. simpl.
  destruct (Ascii.eqb c sep); simpl; [by rewrite IH|].
  pose proof (split_nonempty sep s) as Hne.
  destruct (split sep s) as [|x rest]; [done|]. by rewrite <- IH.
Qed.

(** X9: [split] and [join] on one separator character are inverse to each
    other. Splitting a text gives one field more than the text has
    separators, none of the fields holds the separator, and joining the
    fields gives the text back; joining a non-empty list of separator-free
    items and splitting the result gives the list back. *)
Theorem split_join_round_trips (sep : ascii) :
  (forall s,
     length (split sep s) = S (count_char sep s) /\
     Forall (fun field => has_char sep field = false) (split sep s) /\
     join [: sep :] (split sep s) = s) /\
  (forall items,
     items <> [] ->
     Forall (fun item => has_char sep item = false) items ->
     split sep (join [: sep :] items) = items).
Proof.
  split.
  - intros s. split; [apply split_length|].
    split; [apply split_fields_no_sep | apply join_split].
  - apply split_join.
Qed.

(** ** Further properties of whole runs *)

Section RunExtras.

Variable exn_str : py_exn -> string.

(** X1: when the file can be read but not written, the run reports
    failure (and the script exits with 1): both opens are made, the one
    for writing raises, the message is the one of that fault, and the file
    map is what it was; the patched lines are lost. *)
Theorem unwritable_file_fails_after_read
    (w : world) (p : string) (f : file) (stored : string) :
  w_fs w !! p = Some f ->
  f_readable f = true -> f_data f = Text stored -> f_writable f = false ->
  fst (fix_date_parsing exn_str p w) = Return false /\
  w_fs (snd (fix_date_parsing exn_str p w)) = w_fs w /\
  w_ops (snd (fix_date_parsing exn_str p w))
  = w_ops w ++ [OpenRead p; OpenWrite p] /\
  w_stdout (snd (fix_date_parsing exn_str p w))
  = w_stdout w ++ [error_prefix +:+ exn_str (PermissionError p)] /\
  (p = file_path -> fst (main exn_str w) = 1%Z).
Proof.
  intros Hf Hr Hd Hw.
  rewrite (fix_date_parsing_unwritable exn_str w p f stored) by done. simpl.
  repeat split. intros ->. unfold main.
  by rewrite (fix_date_parsing_unwritable exn_str w file_path f stored).
Qed.

(** X2: when the file is readable but its bytes do not decode, the run
    reports failure (and the script exits with 1): the read raises, the
    message is the one of the decoding fault, no open for writing is made
    and the file map is what it was. *)
Theorem undecodable_file_fails_without_write
    (w : world) (p : string) (f : file) :
  w_fs w !! p = Some f -> f_readable f = true -> f_data f = Undecodable ->
  fst (fix_date_parsing exn_str p w) = Return false /\
  w_fs (snd (fix_date_parsing exn_str p w)) = w_fs w /\
  w_ops (snd (fix_date_parsing exn_str p w)) = w_ops w ++ [OpenRead p] /\
  w_stdout (snd (fix_date_parsing exn_str p w))
  = w_stdout w ++ [error_prefix +:+ exn_str (UnicodeDecodeError p)] /\
  (p = file_path -> fst (main exn_str w) = 1%Z).
Proof.
  intros Hf Hr Hd.
  rewrite (fix_date_parsing_undecodable exn_str w p f) by done. simpl.
  repeat split. intros ->. unfold main.
  by rewrite (fix_date_parsing_undecodable exn_str w file_path f).
Qed.

(** The five ways a run can go, by what the path holds. *)
Lemma fix_date_parsing_cases w p :
  exists b fs' line ops,
    fix_date_parsing exn_str p w
    = (Return b, World fs' (w_stdout w ++ [line])
                       (w_ops w ++ OpenRead p :: ops)) /\
    (forall q, q <> p -> fs' !! q = w_fs w !! q) /\
    (ops = [] \/ ops = [OpenWrite p]) /\
    (b = true -> line = success_message /\ ops = [OpenWrite p]) /\
    (b = false -> fs' = w_fs w /\ exists e, line = error_prefix +:+ exn_str e) /\
    (b = true <->
     exists f stored,
       w_fs w !! p = Some f /\ f_readable f = true /\
       f_writable f = true /\ f_data f = Text stored).
Proof.
  destruct (w_fs w !! p) as [f|] eqn:Hf.
  - destruct (f_readable f) eqn:Hr.
    + destruct (f_data f) as [stored|] eqn:Hd.
      * destruct (f_writable f) eqn:Hw.
        -- eexists true, _, _, _. split;
             [by apply (fix_date_parsing_ok exn_str w p f stored)|].
           split; [intros q Hq; by apply lookup_insert_ne|].
           split; [by right|]. split; [done|]. split; [done|].
           split; [intros _; by exists f, stored | done].
        -- eexists false, _, _, _. split;
             [by apply (fix_date_parsing_unwritable exn_str w p f stored)|].
           split; [done|]. split; [by right|]. split; [done|].
           split; [intros _; split; [done | eauto]|].
           split; [done|]. intros (f' & s' & [= <-] & _ & Hw' & _). congruence.
      * eexists false, _, _, _. split;
          [by apply (fix_date_parsing_undecodable exn_str w p f)|].
        split; [done|]. split; [by left|]. split; [done|].
        split; [intros _; split; [done | eauto]|].
        split; [done|]. intros (f' & s' & [= <-] & _ & _ & Hd'). congruence.
    + eexists false, _, _, _. split;
        [by apply (fix_date_parsing_unreadable exn_str w p f)|].
      split; [done|]. split; [by left|]. split; [done|].
      split; [intros _; split; [done | eauto]|].
      split; [done|]. intros (f' & s' & [= <-] & Hr' & _). congruence.
  - eexists false, _, _, _. split;
      [by apply (fix_date_parsing_missing exn_str w p)|].
    split; [done|]. split; [by left|]. split; [done|].
    split; [intros _; split; [done | eauto]|].
    split; [done|]. intros (f' & s' & [=] & _).
Qed.

(** X3: the footprint of a run, whatever the world. It always returns a
    boolean; it leaves every other path as it was; it prints exactly one
    line after what was printed before (the success message on [True], a
    line behind "Error updating file: " on [False]); and it opens the path
    for reading first and then at most once for writing, and opens no
    other path. *)
Theorem run_footprint (w : world) (p : string) :
  exists b line ops,
    fst (fix_date_parsing exn_str p w) = Return b /\
    (forall q, q <> p ->
       w_fs (snd (fix_date_parsing exn_str p w)) !! q = w_fs w !! q) /\
    w_stdout (snd (fix_date_parsing exn_str p w)) = w_stdout w ++ [line] /\
    w_ops (snd (fix_date_parsing exn_str p w))
    = w_ops w ++ OpenRead p :: ops /\
    (ops = [] \/ ops = [OpenWrite p]) /\
    (b = true -> line = success_message /\ ops = [OpenWrite p]) /\
    (b = false -> exists e, line = error_prefix +:+ exn_str e).
Proof.
  destruct (fix_date_parsing_cases w p)
    as (b & fs' & line & ops & -> & Hframe & Hops & Htrue & Hfalse & _).
  exists b, line, ops. simpl.
  split; [done|]. split; [exact Hframe|]. split; [done|]. split; [done|].
  split; [exact Hops|]. split; [exact Htrue|].
  intros Hb. by destruct (Hfalse Hb).
Qed.

(** X8: the script exits with 0 exactly when the hard-coded path holds a
    readable, decodable, writable file, whether or not a line matches, and
    with 1 otherwise; it does nothing beyond the one call (the world it
    leaves is the one the call leaves), so no path other than the
    hard-coded one is ever changed. *)
Theorem main_exit_status (w : world) :
  (fst (main exn_str w) = 0%Z <->
   exists f stored,
     w_fs w !! file_path = Some f /\ f_readable f = true /\
     f_writable f = true /\ f_data f = Text stored) /\
  (fst (main exn_str w) = 0%Z \/ fst (main exn_str w) = 1%Z) /\
  snd (main exn_str w) = snd (fix_date_parsing exn_str file_path w) /\
  (forall q, q <> file_path -> w_fs (snd (main exn_str w)) !! q = w_fs w !! q).
Proof.
  unfold main.
  destruct (fix_date_parsing_cases w file_path)
    as (b & fs' & line & ops & -> & Hframe & _ & _ & _ & Hiff).
  simpl. destruct b; simpl.
  - split; [split; [intros _; by apply Hiff | done]|].
    split; [by left|]. by split.
  - split; [split; [done | intros H; by apply Hiff in H]|].
    split; [by right|]. by split.
Qed.

(** X7: what a successful run writes reads back as written. For every
    readable, writable text file, the text the next read of the path
    returns holds no carriage return, and splitting it gives exactly the
    lines the loop left in memory. *)
Theorem written_file_reads_back
    (w : world) (p : string) (f : file) (stored : string) :
  w_fs w !! p = Some f ->
  f_readable f = true -> f_writable f = true -> f_data f = Text stored ->
  exists lines',
    patch_lines (file_lines stored) = Return lines' /\
    fst (read_text p (snd (fix_date_parsing exn_str p w)))
    = Return (join [: LF :] lines') /\
    has_char CR (join [: LF :] lines') = false /\
    split LF (join [: LF :] lines') = lines'.
Proof.
  intros Hf Hr Hw Hd.
  destruct (fix_date_parsing_step exn_str w p f stored Hf Hr Hw Hd)
    as (_ & Hf' & Hcr & Hlines).
  exists (patched (file_lines stored)).
  split; [apply patch_lines_patched|].
  unfold read_text. rewrite Hf'. simpl.
  rewrite universal_newlines_id by done.
  split; [done|]. split; [done|].
  unfold file_lines in Hlines at 1.
  by rewrite universal_newlines_id in Hlines.
Qed.

(** X6: a final line break survives a run even when a line is patched.
    For every readable, writable text file whose stored text ends in a
    line break (of either style), the text the run stores ends in
    ["\n"]. *)
Theorem final_line_break_survives
    (w : world) (p : string) (f : file) (stored : string) :
  w_fs w !! p = Some f ->
  f_readable f = true -> f_writable f = true -> f_data f = Text stored ->
  ends_with_break stored = true ->
  exists stored',
    w_fs (snd (fix_date_parsing exn_str p w)) !! p
    = Some (File true true (Text stored')) /\
    ends_with_LF stored' = true.
Proof.
  intros Hf Hr Hw Hd Hend.
  destruct (fix_date_parsing_step exn_str w p f stored Hf Hr Hw Hd) as (_ & Hf' & _).
  eexists. split; [exact Hf'|].
  apply join_patched_keeps_final_LF.
  by apply universal_newlines_keeps_final_break.
Qed.

(** X5: repeated runs patch the occurrences one by one. For every
    readable, writable text file and every [n], after [n] runs the path
    holds a text whose lines contain MatchLiteral [n] times fewer than at
    the start (never fewer than zero) and which is two lines longer for
    each occurrence patched; so once [n] reaches the number of occurrences
    none is left. *)
Theorem repeated_runs_patch_one_by_one
    (n : nat) (w : world) (p : string) (f : file) (stored : string) :
  w_fs w !! p = Some f ->
  f_readable f = true -> f_writable f = true -> f_data f = Text stored ->
  exists stored_n,
    w_fs (run_times exn_str n p w) !! p
    = Some (File true true (Text stored_n)) /\
    count_matches (file_lines stored_n)
    = count_matches (file_lines stored) - n /\
    length (file_lines stored_n)
    = length (file_lines stored)
      + 2 * Nat.min n (count_matches (file_lines stored)).
Proof.
  revert w f stored.
  induction n as [|n IH]; intros w f stored Hf Hr Hw Hd.
  - exists stored. simpl. split; [|lia].
    rewrite Hf. f_equal. destruct f as [r wr d]. simpl in *. by subst.
  - destruct (fix_date_parsing_step exn_str w p f stored Hf Hr Hw Hd)
      as (_ & Hf' & _ & Hlines).
    destruct (IH _ _ _ Hf' eq_refl eq_refl eq_refl)
      as (stored_n & Hfn & Hcount & Hlen).
    exists stored_n.
    change (run_times exn_str (S n) p w)
      with (run_times exn_str n p (snd (fix_date_parsing exn_str p w))).
    split; [exact Hfn|].
    rewrite Hlines, patched_count in Hcount.
    rewrite Hlines, patched_length, patched_count in Hlen.
    split; lia.
Qed.

End RunExtras.

(** ** The further run properties at sample worlds *)

Lemma unwritable_file_fails_after_read_witness :
  w_fs (world_with (File true false (Text scenario_text))) !! file_path
  = Some (File true false (Text scenario_text)) /\
  fst (fix_date_parsing sample_exn_str file_path
         (world_with (File true false (Text scenario_text))))
  = Return false /\
  w_fs (snd (fix_date_parsing sample_exn_str file_path
               (world_with (File true false (Text scenario_text)))))
  = w_fs (world_with (File true false (Text scenario_text))) /\
  w_ops (snd (fix_date_parsing sample_exn_str file_path
                (world_with (File true false (Text scenario_text)))))
  = w_ops (world_with (File true false (Text scenario_text)))
    ++ [OpenRead file_path; OpenWrite file_path] /\
  w_stdout (snd (fix_date_parsing sample_exn_str file_path
                   (world_with (File true false (Text scenario_text)))))
  = w_stdout (world_with (File true false (Text scenario_text)))
    ++ [error_prefix +:+ sample_exn_str (PermissionError file_path)] /\
  (file_path = file_path ->
   fst (main sample_exn_str
          (world_with (File true false (Text scenario_text)))) = 1%Z).
Proof.
  assert (H : w_fs (world_with (File true false (Text scenario_text)))
              !! file_path
              = Some (File true false (Text scenario_text)))
    by reflexivity.
  split; [exact H|].
  exact (unwritable_file_fails_after_read sample_exn_str
           (world_with (File true false (Text scenario_text))) file_path
           (File true false (Text scenario_text)) scenario_text
           H eq_refl eq_refl eq_refl).
Defined.

Lemma undecodable_file_fails_without_write_witness :
  w_fs (world_with (File true true Undecodable)) !! file_path
  = Some (File true true Undecodable) /\
  fst (fix_date_parsing sample_exn_str file_path
         (world_with (File true true Undecodable)))
  = Return false /\
  w_fs (snd (fix_date_parsing sample_exn_str file_path
               (world_with (File true true Undecodable))))
  = w_fs (world_with (File true true Undecodable)) /\
  w_ops (snd (fix_date_parsing sample_exn_str file_path
                (world_with (File true true Undecodable))))
  = w_ops (world_with (File true true Undecodable)) ++ [OpenRead file_path] /\
  w_stdout (snd (fix_date_parsing sample_exn_str file_path
                   (world_with (File true true Undecodable))))
  = w_stdout (world_with (File true true Undecodable))
    ++ [error_prefix +:+ sample_exn_str (UnicodeDecodeError file_path)] /\
  (file_path = file_path ->
   fst (main sample_exn_str (world_with (File true true Undecodable)))
   = 1%Z).
Proof.
  assert (H : w_fs (world_with (File true true Undecodable)) !! file_path
              = Some (File true true Undecodable))
    by reflexivity.
  split; [exact H|].
  exact (undecodable_file_fails_without_write sample_exn_str
           (world_with (File true true Undecodable)) file_path
           (File true true Undecodable) H eq_refl eq_refl).
Defined.

Lemma written_file_reads_back_witness :
  w_fs (world_of scenario_text) !! file_path
  = Some (File true true (Text scenario_text)) /\
  exists lines',
    patch_lines (file_lines scenario_text) = Return lines' /\
    fst (read_text file_path
           (snd (fix_date_parsing sample_exn_str file_path
                   (world_of scenario_text))))
    = Return (join [: LF :] lines') /\
    has_char CR (join [: LF :] lines') = false /\
    split LF (join [: LF :] lines') = lines'.
Proof.
  assert (H : w_fs (world_of scenario_text) !! file_path
              = Some (File true true (Text scenario_text)))
    by reflexivity.
  split; [exact H|].
  exact (written_file_reads_back sample_exn_str
           (world_of scenario_text) file_path
           (File true true (Text scenario_text)) scenario_text
           H eq_refl eq_refl eq_refl).
Defined.

Lemma final_line_break_survives_witness :
  w_fs (world_of site_and_break_text) !! file_path
  = Some (File true true (Text site_and_break_text)) /\
  ends_with_break site_and_break_text = true /\
  exists stored',
    w_fs (snd (fix_date_parsing sample_exn_str file_path
                 (world_of site_and_break_text))) !! file_path
    = Some (File true true (Text stored')) /\
    ends_with_LF stored' = true.
Proof.
  assert (H : w_fs (world_of site_and_break_text) !! file_path
              = Some (File true true (Text site_and_break_text)))
    by reflexivity.
  assert (Hend : ends_with_break site_and_break_text = true)
    by reflexivity.
  split; [exact H|]. split; [exact Hend|].
  exact (final_line_break_survives sample_exn_str
           (world_of site_and_break_text) file_path
           (File true true (Text site_and_break_text)) site_and_break_text
           H eq_refl eq_refl eq_refl Hend).
Defined.

Lemma repeated_runs_patch_one_by_one_witness :
  w_fs (world_of twice_text) !! file_path
  = Some (File true true (Text twice_text)) /\
  exists stored_n,
    w_fs (run_times sample_exn_str 3 file_path (world_of twice_text))
    !! file_path
    = Some (File true true (Text stored_n)) /\
    count_matches (file_lines stored_n)
    = count_matches (file_lines twice_text) - 3 /\
    length (file_lines stored_n)
    = length (file_lines twice_text)
      + 2 * Nat.min 3 (count_matches (file_lines twice_text)).
Proof.
  assert (H : w_fs (world_of twice_text) !! file_path
              = Some (File true true (Text twice_text)))
    by reflexivity.
  split; [exact H|].
  exact (repeated_runs_patch_one_by_one sample_exn_str 3
           (world_of twice_text) file_path
           (File true true (Text twice_text)) twice_text
           H eq_refl eq_refl eq_refl).
Defined.

Lemma C5_witness :
  w_fs (world_of prefixed_sites_text) !! file_path
  = Some (File true true (Text prefixed_sites_text)) /\
  file_lines prefixed_sites_text !! 1 = Some MatchLiteral /\
  contains MatchLiteral MatchLiteral /\
  (forall k l, k < 1 -> file_lines prefixed_sites_text !! k = Some l ->
               ~ contains MatchLiteral l) /\
  file_lines prefixed_sites_text !! 3 = Some indented_site /\
  contains MatchLiteral indented_site /\
  fst (fix_date_parsing sample_exn_str file_path
         (world_of prefixed_sites_text)) = Return true /\
  exists stored',
    w_fs (snd (fix_date_parsing sample_exn_str file_path
                 (world_of prefixed_sites_text))) !! file_path
    = Some (File true true (Text stored')) /\
    length (file_lines stored') = length (file_lines prefixed_sites_text) + 2 /\
    file_lines stored' !! 1 = Some InsertionLiteral0 /\
    file_lines stored' !! (1 + 1) = Some InsertionLiteral1 /\
    file_lines stored' !! (1 + 2) = Some ReplacementLiteral /\
    file_lines stored' !! (3 + 2) = Some indented_site /\
    (forall k, k < 1 ->
       file_lines stored' !! k = file_lines prefixed_sites_text !! k) /\
    (forall k, 1 < k ->
       file_lines stored' !! (k + 2) = file_lines prefixed_sites_text !! k).
Proof.
  assert (H1 : w_fs (world_of prefixed_sites_text) !! file_path
               = Some (File true true (Text prefixed_sites_text)))
    by reflexivity.
  assert (H2 : file_lines prefixed_sites_text !! 1 = Some MatchLiteral)
    by reflexivity.
  assert (H3 : contains MatchLiteral MatchLiteral)
    by (exists EmptyString, EmptyString; reflexivity).
  assert (H4 : forall k l, k < 1 ->
                 file_lines prefixed_sites_text !! k = Some l ->
                 ~ contains MatchLiteral l).
  { intros k l Hk Hl. destruct k as [|k]; [|lia].
    vm_compute in Hl. injection Hl as <-.
    by apply unmatched_contains. }
  assert (H5 : file_lines prefixed_sites_text !! 3 = Some indented_site)
    by reflexivity.
  assert (H6 : contains MatchLiteral indented_site)
    by (exists "      "%string, EmptyString; reflexivity).
  split; [exact H1|]. split; [exact H2|]. split; [exact H3|].
  split; [exact H4|]. split; [exact H5|]. split; [exact H6|].
  exact (C5_run_patches_lowest_occurrence_only sample_exn_str
           (world_of prefixed_sites_text) file_path
           (File true true (Text prefixed_sites_text)) prefixed_sites_text
           1 3 MatchLiteral indented_site
           H1 eq_refl eq_refl eq_refl H2 H3 H4 ltac:(lia) H5 H6).
Defined.

(** C5, as stated with an occurrence read as a line equal to MatchLiteral,
    fails: in the file below MatchLiteral is the text of the lines at
    indices 1 and 2 and of no other line; the run patches index 0, whose
    line only contains MatchLiteral, and leaves the occurrence at the
    lowest index, 1, as it was (it is found again at index 3). *)
Lemma C5_counterexample :
  file_lines three_sites_text = [indented_site; MatchLiteral; MatchLiteral] /\
  indented_site <> MatchLiteral /\
  fst (fix_date_parsing sample_exn_str file_path (world_of three_sites_text))
  = Return true /\
  w_fs (snd (fix_date_parsing sample_exn_str file_path
               (world_of three_sites_text))) !! file_path
  = Some (File true true
            (Text (join [: LF :]
                     [InsertionLiteral0; InsertionLiteral1;
                      ReplacementLiteral; MatchLiteral; MatchLiteral]))) /\
  file_lines (join [: LF :]
                [InsertionLiteral0; InsertionLiteral1;
                 ReplacementLiteral; MatchLiteral; MatchLiteral])
  = [InsertionLiteral0; InsertionLiteral1; ReplacementLiteral;
     MatchLiteral; MatchLiteral] /\
  [InsertionLiteral0; InsertionLiteral1; ReplacementLiteral;
   MatchLiteral; MatchLiteral]
  <> [indented_site; InsertionLiteral0; InsertionLiteral1;
      ReplacementLiteral; MatchLiteral].
Proof. repeat split; by vm_compute. Qed.
